(** * do-retry-proxy: a retry proxy for Durable Object namespaces

    A shallow embedding of [src/retry-proxy.ts].  The file under [src/]
    holds two revisions of the module, one after the other:

    - revision A (lines 1-184): the caller's predicate is optional and is
      consulted after the built-in rule ([isErrorRetryable(err)] first,
      [options.isRetryable(err)] second);
    - revision B (lines 185-360): [withRetry] installs
      [options?.isRetryable ?? isErrorRetryable] and the engine consults
      that single predicate.

    [isErrorRetryable], [jitterBackoff] and the namespace proxy are the
    same in both; the attempt loop and the option merge differ and are
    embedded once per revision, in [Module RevA] and [Module RevB].

    Modelling conventions.
    - A JavaScript value is a term of [JsValue]: primitives, [Error]
      instances and plain objects with own data properties.  A value whose
      conversion by [String()] would run code of its own (an own
      [toString] or [valueOf], an accessor, a proxy) is outside the model:
      the type of property names leaves no way to write one.
    - The numbers of the backoff ([baseDelayMs], [maxDelayMs], the draw of
      [Math.random()], the delay) are IEEE 754 binary64 values, the
      Standard Library's [spec_float] at precision 53: products round to
      nearest, ties to even, [2 ** attempt] overflows to [Infinity] from
      attempt 1024 on, and [Infinity * 0] is [NaN].  The attempt counter
      and [maxAttempts] are integers ([Z]).
    - A field of [RetryOptions] is either given or left out ([option]).
    - The handle getter, the caller's predicate and [scheduler.wait]
      return normally; only the awaited method call may reject.
    - Everything outside the module (the stubs, the namespace, the random
      source, the scheduler) is an oracle that answers from the trace of
      the events that happened so far; the trace is threaded through the
      code as explicit state and doubles as a spy on every call. *)

From Stdlib Require Import ZArith List String Ascii Bool Lia DecimalString.
From Stdlib Require Import SpecFloat.
From Equations Require Import Equations.
Import ListNotations.
Local Open Scope string_scope.
Local Open Scope list_scope.
Local Open Scope Z_scope.
Set Warnings "-register-all".

(* ===================================================================== *)
(** * JavaScript values *)
(* ===================================================================== *)

(** Names of own data properties.  [String(v)] on an object calls the
    [toString] (then the [valueOf]) the object answers to; an object that
    carries its own runs arbitrary code there and may throw.  A [Key]
    cannot be one of the [reserved] names, so such objects cannot be
    written down. *)
Definition is_reserved (reserved : list string) (k : string) : bool :=
  existsb (String.eqb k) reserved.

Record Key (reserved : list string) : Type := key {
  key_name : string;
  key_free : is_reserved reserved key_name = false
}.
Arguments key {reserved} key_name key_free.
Arguments key_name {reserved} _.
Arguments key_free {reserved} _.

Definition conversion_hooks : list string := ["toString"; "valueOf"].

(** Own property names of a plain object, and of an [Error] instance
    (whose [name] and [message] are fields of their own below). *)
Definition OwnKey : Type := Key conversion_hooks.
Definition ErrorKey : Type := Key ("name" :: "message" :: conversion_hooks).

Notation "'own' s" :=
  (@key conversion_hooks s eq_refl) (at level 9, s at level 0).
Notation "'decor' s" :=
  (@key ("name" :: "message" :: conversion_hooks) s eq_refl)
  (at level 9, s at level 0).

(** An integer a double holds exactly and [String()] prints in plain
    decimal digits: [Number.isSafeInteger]. *)
Record SafeInteger : Type := safe {
  int_value : Z;
  int_safe : (Z.abs int_value <? 2 ^ 53) = true
}.

Notation "'sint' n" := (safe n eq_refl) (at level 9, n at level 0).

(** The values an [unknown] can hold, as far as the module looks at them.

    - [JError name message props] is an [Error] instance: [message] is
      the string [e.message] holds (the argument of [new Error(message)]
      unless reassigned, [""] when there is none); [name] is [None] when
      [e.name] is the inherited ["Error"] and [Some n] when the instance
      or its class sets it ([e.name = n], a [TypeError]); [props] are the
      other own properties, set by assignments such as
      [error.retryable = true].
    - [JObject props] is a plain object.

    [props] lists own properties, most recent assignment first. *)
Inductive JsValue : Type :=
| JUndefined
| JNull
| JBool (b : bool)
| JNum (n : SafeInteger)
| JNaN
| JStr (s : string)
| JError (name : option string) (message : string)
    (props : list (ErrorKey * JsValue))
| JObject (props : list (OwnKey * JsValue)).

Fixpoint assoc {reserved : list string} (k : string)
    (props : list (Key reserved * JsValue)) : JsValue :=
  match props with
  | [] => JUndefined
  | (k', v) :: rest => if String.eqb k (key_name k') then v else assoc k rest
  end.

(** The two properties the module reads off an error. *)
Inductive Marker : Type := retryable | overloaded.

Definition marker_name (k : Marker) : string :=
  match k with
  | retryable => "retryable"
  | overloaded => "overloaded"
  end.

(** [e?.retryable] and [e?.overloaded]: [undefined] on [null] and
    [undefined], a property read otherwise.  Neither name is defined on
    the prototype of a primitive, of [Object] or of [Error], so the read
    finds an own property or nothing. *)
Definition opt_get (e : JsValue) (k : Marker) : JsValue :=
  match e with
  | JUndefined | JNull => JUndefined
  | JBool _ | JNum _ | JNaN | JStr _ => JUndefined
  | JError _ _ props => assoc (marker_name k) props
  | JObject props => assoc (marker_name k) props
  end.

(** [Boolean(v)]. *)
Definition Boolean (v : JsValue) : bool :=
  match v with
  | JUndefined | JNull | JNaN => false
  | JBool b => b
  | JNum n => negb (int_value n =? 0)
  | JStr s => negb (String.eqb s "")
  | JError _ _ _ | JObject _ => true
  end.

(** [String(v)].  An [Error] renders through [Error.prototype.toString]:
    the message alone under an empty name, the name alone with an empty
    message, [name + ": " + message] otherwise.  A plain object renders
    through [Object.prototype.toString]. *)
Definition String_ (v : JsValue) : string :=
  match v with
  | JUndefined => "undefined"
  | JNull => "null"
  | JBool true => "true"
  | JBool false => "false"
  | JNum n => NilZero.string_of_int (Z.to_int (int_value n))
  | JNaN => "NaN"
  | JStr s => s
  | JError name message _ =>
      let name := match name with Some n => n | None => "Error" end in
      if String.eqb name "" then message
      else if String.eqb message "" then name
      else (name ++ ": " ++ message)%string
  | JObject _ => "[object Object]"
  end.

(** [s.includes(sub)]. *)
Fixpoint includes (s sub : string) : bool :=
  if String.prefix sub s then true
  else match s with
       | EmptyString => false
       | String _ s' => includes s' sub
       end.

(* ===================================================================== *)
(** * Error classification (identical in both revisions) *)
(* ===================================================================== *)

Definition OVERLOADED_TEXT : string := "Durable Object is overloaded".

(** [isErrorRetryable], lines 33-37 (and 217-223). *)
Definition isErrorRetryable (err : JsValue) : bool :=
  let e := err in
  let msg := String_ err in
  Boolean (opt_get e retryable)
  && negb (Boolean (opt_get e overloaded))
  && negb (includes msg OVERLOADED_TEXT).

(** ** What the classification is about

    The notions the classifier is specified with, written out on their
    own: JavaScript truthiness, the most recent own property of a name,
    the rendering of a value by [String()], and substring containment. *)







(* ===================================================================== *)
(** * Numbers and the backoff (identical in both revisions) *)
(* ===================================================================== *)

(** A JavaScript [Number]: an IEEE 754 binary64 value. *)
Definition prec : Z := 53.
Definition emax : Z := 1024.
Definition Number : Type := spec_float.

(** The [Number] of an integer literal. *)
Definition number_of_Z (z : Z) : Number := binary_normalize prec emax z 0 false.

(** [x * y]. *)
Definition number_mul (x y : Number) : Number := SFmul prec emax x y.

(** [2 ** n] for an integer [n]: the exact power of two, [Infinity] from
    [n = 1024] on, [0] below the subnormal range. *)
Definition number_pow2 (n : Z) : Number :=
  SFldexp prec emax (SFone prec emax) n.

(** [x <= y], [x < y] and [x == y]: all false on [NaN]. *)
Definition number_le (x y : Number) : Prop := SFleb x y = true.
Definition number_lt (x y : Number) : Prop := SFltb x y = true.

(** [Math.min(x, y)]: [NaN] if either is, and [-0] below [+0]. *)
Definition Math_min (x y : Number) : Number :=
  match SFcompare x y with
  | None => S754_nan
  | Some Lt => x
  | Some Gt => y
  | Some Eq =>
      match x, y with
      | S754_zero sx, S754_zero sy => S754_zero (sx || sy)
      | _, _ => x
      end
  end.

(** [Math.floor(x)]: the largest integer not above [x]; [NaN], the
    infinities and the zeros are returned as they are. *)
Definition Math_floor (x : Number) : Number :=
  match x with
  | S754_finite s m e =>
      if 0 <=? e then x
      else binary_normalize prec emax (cond_Zopp s (Zpos m) / 2 ^ (- e)) 0 s
  | _ => x
  end.

(** [Number.isInteger(x)] on a well-formed double. *)
Definition is_integer (x : Number) : bool :=
  match x with
  | S754_zero _ => true
  | S754_finite _ m e =>
      bounded prec emax m e && ((0 <=? e) || (Z.pos m mod 2 ^ (- e) =? 0))
  | _ => false
  end.

(** The contract of [Math.random()]: a number in [[0, 1)]. *)
Definition unit_interval (r : Number) : Prop :=
  valid_binary prec emax r = true
  /\ number_le (number_of_Z 0) r /\ number_lt r (number_of_Z 1).

(** The cap of [jitterBackoff]: [Math.min(2 ** attempt * baseDelayMs,
    maxDelayMs)]. *)
Definition attemptUpperBoundMs (attempt : Z) (baseDelayMs maxDelayMs : Number)
    : Number :=
  Math_min (number_mul (number_pow2 attempt) baseDelayMs) maxDelayMs.

(** [jitterBackoff], lines 44-47 (and 230-233), with the draw of
    [Math.random()] passed in. *)
Definition jitterBackoff (r : Number) (attempt : Z)
    (baseDelayMs maxDelayMs : Number) : Number :=
  let attemptUpperBoundMs := attemptUpperBoundMs attempt baseDelayMs maxDelayMs in
  Math_floor (number_mul r attemptUpperBoundMs).

(** How [binary_round_aux] ends: a mantissa [m] at exponent [e] is a
    finite number unless the exponent is out of range; a rounded mantissa
    [R] that reached [2^53] is renormalised first. *)
Definition overflow_or (s : bool) (m e : Z) : spec_float :=
  if e <=? emax - prec then S754_finite s (Z.to_pos m) e else S754_infinity s.

Definition normalised (s : bool) (R e : Z) : spec_float :=
  if R =? 0 then S754_zero s
  else if R =? 2 ^ prec then overflow_or s (2 ^ (prec - 1)) (e + 1)
  else overflow_or s R e.

(* ===================================================================== *)
(** * The world around the module *)
(* ===================================================================== *)

(** Objects of the host are known by identity only. *)
Definition Stub := nat.
Definition Namespace := nat.
Definition FunctionId := nat.

Inductive PropKey : Type :=
| KStr (s : string)
| KSym (s : string).

(** What [Reflect.get] hands back, split the way the traps split it:
    [typeof value === 'function'] or not. *)
Inductive Member : Type :=
| MValue (v : JsValue)
| MFunction (f : FunctionId).

(** The receiver a trap passes on to [Reflect.get]. *)
Inductive Receiver : Type := RTarget | RProxy.

(** The addressing parameters a handle getter closes over. *)
Inductive Addr : Type :=
| ById (id : JsValue)
| ByName (name : JsValue) (options : JsValue).

(** How an awaited call (or a plain call) ends. *)
Inductive Outcome : Type :=
| Resolved (v : JsValue)
| Rejected (e : JsValue).

(** One observable step of a run. *)
Inductive Event : Type :=
| ECall (stub : Stub) (prop : string) (args : list JsValue)
| EGetStub (stub : Stub)
| ERandom (r : Number)
| EWait (delay : Number)
| EApply (f : FunctionId) (this : Namespace) (args : list JsValue)
| EJurisdiction (ns : Namespace) (j : JsValue).

Definition Trace := list Event.

(** The host: every answer is a function of the events so far. *)
Record Runtime : Type := {
  (** [await stub[prop](...args)] *)
  rpc : Trace -> Stub -> string -> list JsValue -> Outcome;
  (** [Math.random()] *)
  math_random : Trace -> Number;
  (** [target.get(id)] and [target.getByName(name, options)] *)
  ns_stub : Trace -> Namespace -> Addr -> Stub;
  (** [target.jurisdiction(j)] *)
  ns_jurisdiction : Trace -> Namespace -> JsValue -> Namespace;
  (** [Reflect.get(target, prop, receiver)] on a stub and on a namespace *)
  stub_member : Stub -> PropKey -> Receiver -> Member;
  ns_member : Namespace -> PropKey -> Receiver -> Member;
  (** calling a function value with a given [this] *)
  fn_apply : Trace -> FunctionId -> Namespace -> list JsValue -> Outcome
}.

(** [type StubGetter = () => DurableObjectStub]: a closure; each call is
    answered by the host. *)
Definition StubGetter := Trace -> Stub.

(** [RetryOptions], lines 11-20: every field may be left out. *)
Record RetryOptions : Type := {
  ro_maxAttempts : option Z;
  ro_baseDelayMs : option Number;
  ro_maxDelayMs : option Number;
  ro_isRetryable : option (JsValue -> bool)
}.

(** [DEFAULT_OPTIONS], lines 22-26. *)
Definition DEFAULT_maxAttempts : Z := 3.
Definition DEFAULT_baseDelayMs : Number := number_of_Z 100.
Definition DEFAULT_maxDelayMs : Number := number_of_Z 3000.

(** [{ ...DEFAULT_OPTIONS, ...options }] on one numeric field. *)
Definition spread {A : Type} (default : A) (given : option A) : A :=
  match given with
  | Some v => v
  | None => default
  end.

(** The number of awaited method calls, handle acquisitions and waits in
    a trace. *)
Fixpoint count_calls (tr : Trace) : nat :=
  match tr with
  | [] => 0%nat
  | ECall _ _ _ :: rest => S (count_calls rest)
  | _ :: rest => count_calls rest
  end.

Fixpoint count_getStub (tr : Trace) : nat :=
  match tr with
  | [] => 0%nat
  | EGetStub _ :: rest => S (count_getStub rest)
  | _ :: rest => count_getStub rest
  end.

Fixpoint count_waits (tr : Trace) : nat :=
  match tr with
  | [] => 0%nat
  | EWait _ :: rest => S (count_waits rest)
  | _ :: rest => count_waits rest
  end.

(** [prop === name]: never true of a symbol. *)
Definition prop_is (prop : PropKey) (name : string) : bool :=
  match prop with
  | KStr s => String.eqb s name
  | KSym _ => false
  end.

(** What the [get] trap of the namespace proxy returns (lines 149-182,
    the same in both revisions): the value itself, one of the three
    closures, or [value.bind(target)]. *)
Inductive NamespaceProxyMember : Type :=
| NPValue (value : JsValue)
| NPGet
| NPGetByName
| NPJurisdiction
| NPBound (f : FunctionId) (this : Namespace).

Definition namespace_proxy_get (rt : Runtime) (target : Namespace)
    (prop : PropKey) : NamespaceProxyMember :=
  let value := ns_member rt target prop RProxy in
  match value with
  | MValue v => NPValue v
  | MFunction f =>
      if prop_is prop "get" then NPGet
      else if prop_is prop "getByName" then NPGetByName
      else if prop_is prop "jurisdiction" then NPJurisdiction
      else NPBound f target
  end.

(** What the [get] trap of a stub proxy returns: the value itself or the
    retrying closure for the method [prop]. *)
Inductive StubProxyMember : Type :=
| SPValue (value : Member)
| SPRetrying (prop : string).

(** The [TypeError] of calling a value that is not a function. *)
Definition not_a_function : JsValue :=
  JError (Some "TypeError") "value is not a function" [].

(** Calling the underlying namespace directly: [namespace[prop](...args)]. *)
Definition direct_call (rt : Runtime) (namespace : Namespace) (f : FunctionId)
    (args : list JsValue) (tr : Trace) : Outcome * Trace :=
  (fn_apply rt tr f namespace args, tr ++ [EApply f namespace args]).

(** The handles of the awaited method calls of a trace, in order, and
    every handle a trace mentions. *)
Fixpoint called_handles (tr : Trace) : list Stub :=
  match tr with
  | [] => []
  | ECall s _ _ :: rest => s :: called_handles rest
  | _ :: rest => called_handles rest
  end.

Fixpoint handles_of (tr : Trace) : list Stub :=
  match tr with
  | [] => []
  | ECall s _ _ :: rest => s :: handles_of rest
  | EGetStub s :: rest => s :: handles_of rest
  | _ :: rest => handles_of rest
  end.

(** Every method call of a trace is [prop] applied to [args]. *)
Definition calls_are (prop : string) (args : list JsValue) (tr : Trace) : Prop :=
  forall s p a, In (ECall s p a) tr -> p = prop /\ a = args.

(** The handle in hand while a trace is replayed: a method call uses it
    up, a handle acquisition replaces it. *)
Definition in_hand_after (ev : Event) (in_hand : option Stub) : option Stub :=
  match ev with
  | ECall _ _ _ => None
  | EGetStub s => Some s
  | _ => in_hand
  end.

(** Replaying [rest] after [before]: every method call is made on the
    handle in hand, and every acquisition records what [getStub] answered
    at that point.  Started with [Some target] in hand, the second and
    later calls can only be made on handles acquired since the call
    before them. *)
Fixpoint retries_on_fresh_handles (getStub : StubGetter) (before : Trace)
    (in_hand : option Stub) (rest : Trace) : Prop :=
  match rest with
  | [] => True
  | ev :: rest' =>
      match ev with
      | ECall s _ _ => in_hand = Some s
      | EGetStub s => s = getStub before
      | _ => True
      end
      /\ retries_on_fresh_handles getStub (before ++ [ev])
           (in_hand_after ev in_hand) rest'
  end.

(** No two consecutive entries are the same handle. *)
Fixpoint distinct_neighbours (l : list Stub) : Prop :=
  match l with
  | a :: (b :: _) as tail => a <> b /\ distinct_neighbours tail
  | _ => True
  end.

(** What the platform promises of [namespace.get] and
    [namespace.getByName]: a handle that has not been seen before. *)
Definition getter_fresh (getStub : StubGetter) : Prop :=
  forall tr, ~ In (getStub tr) (handles_of tr).

(** The caller-supplied predicate and attempt budget of a configuration
    as passed to [withRetry]. *)
Definition predicate_of (options : option RetryOptions)
    : option (JsValue -> bool) :=
  match options with
  | Some o => ro_isRetryable o
  | None => None
  end.

Definition maxAttempts_of (options : option RetryOptions) : Z :=
  spread DEFAULT_maxAttempts
    (match options with Some o => ro_maxAttempts o | None => None end).

(** An error that signals overload: a truthy [overloaded] marker, or a
    rendering that contains the overload text. *)
Definition signals_overload (e : JsValue) : Prop :=
  Boolean (opt_get e overloaded) = true
  \/ includes (String_ e) OVERLOADED_TEXT = true.

(* ===================================================================== *)
(** * Revision A: built-in rule first, caller's predicate second *)
(* ===================================================================== *)

Module RevA.

(** The [options] parameter of [createStubProxy], line 57. *)
Record Options : Type := {
  maxAttempts : Z;
  baseDelayMs : Number;
  maxDelayMs : Number;
  isRetryable : option (JsValue -> bool)
}.

(** Lines 88-98: [true] when control reaches the retry logic, [false]
    when the [else] branch rethrows. *)
Definition reaches_retry_logic (options : Options) (err : JsValue) : bool :=
  if isErrorRetryable err then true
  else if match isRetryable options with
          | Some p => p err
          | None => false
          end
       then true
       else false.

Section Engine.
Variable rt : Runtime.
Variable getStub : StubGetter.
Variable options : Options.
Variable prop : string.
Variable args : list JsValue.

(** The [while] loop of lines 80-116 followed by [throw lastError]
    (line 118), from the loop head with the locals [attempt],
    [lastError] and [currentStub]. *)
Equations? retry_loop (attempt : Z) (lastError : JsValue) (currentStub : Stub)
    (tr : Trace) : Outcome * Trace
    by wf (Z.to_nat (maxAttempts options + 1 - attempt)) lt :=
  retry_loop attempt lastError currentStub tr
    with Z_le_gt_dec attempt (maxAttempts options) := {
    | right _ => (Rejected lastError, tr)
    | left _ with rpc rt tr currentStub prop args := {
      | Resolved v => (Resolved v, tr ++ [ECall currentStub prop args])
      | Rejected err with reaches_retry_logic options err := {
        | false => (Rejected err, tr ++ [ECall currentStub prop args])
        | true with Z_ge_lt_dec attempt (maxAttempts options) := {
          | left _ => (Rejected err, tr ++ [ECall currentStub prop args])
          | right _ =>
              let tr1 := tr ++ [ECall currentStub prop args] in
              let fresh := getStub tr1 in
              let tr2 := tr1 ++ [EGetStub fresh] in
              let r := math_random rt tr2 in
              let delay :=
                jitterBackoff r attempt (baseDelayMs options) (maxDelayMs options) in
              let tr3 := tr2 ++ [ERandom r; EWait delay] in
              retry_loop (attempt + 1) err fresh tr3 } } } }.
Proof. lia. Qed.

(** The [async (...args) => { ... }] closure of lines 75-119. *)
Definition retrying_call (target : Stub) (tr : Trace) : Outcome * Trace :=
  let attempt := 1 in
  let lastError := JUndefined in
  let currentStub := target in
  retry_loop attempt lastError currentStub tr.

End Engine.

(** A stub proxy: the [target] of [new Proxy(stub, ...)] and what the
    handler closes over. *)
Record StubProxy : Type := {
  target : Stub;
  sp_getStub : StubGetter;
  sp_options : Options
}.

(** [createStubProxy], lines 55-61: one handle is acquired up front. *)
Definition createStubProxy (getStub : StubGetter) (options : Options)
    (tr : Trace) : StubProxy * Trace :=
  let stub := getStub tr in
  ({| target := stub; sp_getStub := getStub; sp_options := options |},
   tr ++ [EGetStub stub]).

(** The [get] trap of the stub proxy, lines 62-74. *)
Definition stub_proxy_get (rt : Runtime) (proxy : StubProxy) (prop : PropKey)
    : StubProxyMember :=
  let value := stub_member rt (target proxy) prop RTarget in
  match value with
  | MValue _ => SPValue value
  | MFunction _ =>
      match prop with
      | KSym _ => SPValue value
      | KStr name => SPRetrying name
      end
  end.

(** [await proxy[prop](...args)] for a member the trap wrapped. *)
Definition stub_proxy_call (rt : Runtime) (proxy : StubProxy) (prop : string)
    (args : list JsValue) (tr : Trace) : Outcome * Trace :=
  retrying_call rt (sp_getStub proxy) (sp_options proxy) prop args
    (target proxy) tr.

(** A namespace proxy: the [target] of [new Proxy(namespace, ...)], the
    [options] argument and the merged [opts]. *)
Record NamespaceProxy : Type := {
  np_target : Namespace;
  np_options : option RetryOptions;
  np_opts : Options
}.

(** Lines 142-146:
    [{ ...DEFAULT_OPTIONS, ...options, isRetryable: options?.isRetryable }]. *)
Definition merge_options (options : option RetryOptions) : Options :=
  {| maxAttempts :=
       spread DEFAULT_maxAttempts
         (match options with Some o => ro_maxAttempts o | None => None end);
     baseDelayMs :=
       spread DEFAULT_baseDelayMs
         (match options with Some o => ro_baseDelayMs o | None => None end);
     maxDelayMs :=
       spread DEFAULT_maxDelayMs
         (match options with Some o => ro_maxDelayMs o | None => None end);
     isRetryable :=
       match options with Some o => ro_isRetryable o | None => None end |}.

(** [withRetry], lines 138-148. *)
Definition withRetry (namespace : Namespace) (options : option RetryOptions)
    : NamespaceProxy :=
  let opts := merge_options options in
  {| np_target := namespace; np_options := options; np_opts := opts |}.

(** What calling a member of the namespace proxy returns. *)
Inductive Returned : Type :=
| RStub (proxy : StubProxy)
| RNamespace (proxy : NamespaceProxy)
| RPlain (result : Outcome).

(** Calling what the [get] trap returned (lines 157-181) with [args]. *)
Definition namespace_proxy_apply (rt : Runtime) (np : NamespaceProxy)
    (member : NamespaceProxyMember) (args : list JsValue) (tr : Trace)
    : Returned * Trace :=
  let target := np_target np in
  match member with
  | NPGet =>
      let id := nth 0 args JUndefined in
      let getStub := fun tr' => ns_stub rt tr' target (ById id) in
      let (proxy, tr') := createStubProxy getStub (np_opts np) tr in
      (RStub proxy, tr')
  | NPGetByName =>
      let name := nth 0 args JUndefined in
      let options := nth 1 args JUndefined in
      let getStub := fun tr' => ns_stub rt tr' target (ByName name options) in
      let (proxy, tr') := createStubProxy getStub (np_opts np) tr in
      (RStub proxy, tr')
  | NPJurisdiction =>
      let jurisdiction := nth 0 args JUndefined in
      let jurisdictionNamespace := ns_jurisdiction rt tr target jurisdiction in
      (RNamespace (withRetry jurisdictionNamespace (np_options np)),
       tr ++ [EJurisdiction target jurisdiction])
  | NPBound f this =>
      (RPlain (fn_apply rt tr f this args), tr ++ [EApply f this args])
  | NPValue _ => (RPlain (Rejected not_a_function), tr)
  end.

(** [wrapped[prop](...args)]. *)
Definition namespace_proxy_call (rt : Runtime) (np : NamespaceProxy)
    (prop : PropKey) (args : list JsValue) (tr : Trace) : Returned * Trace :=
  namespace_proxy_apply rt np (namespace_proxy_get rt (np_target np) prop) args tr.

(** [await withRetry(namespace, options).getByName(name)[prop](...args)],
    the shape of every test in [retry-proxy.test.ts]. *)
Definition getByName_then_call (rt : Runtime) (namespace : Namespace)
    (options : option RetryOptions) (name : JsValue) (prop : string)
    (args : list JsValue) (tr : Trace) : Outcome * Trace :=
  match namespace_proxy_apply rt (withRetry namespace options) NPGetByName
          [name] tr with
  | (RStub proxy, tr') =>
      match stub_proxy_get rt proxy (KStr prop) with
      | SPRetrying name => stub_proxy_call rt proxy name args tr'
      | SPValue _ => (Rejected not_a_function, tr')
      end
  | (_, tr') => (Rejected not_a_function, tr')
  end.

End RevA.

(* ===================================================================== *)
(** * Revision B: one predicate, the built-in rule being its default *)
(* ===================================================================== *)

Module RevB.

(** The [options] parameter of [createStubProxy], line 243. *)
Record Options : Type := {
  maxAttempts : Z;
  baseDelayMs : Number;
  maxDelayMs : Number;
  isRetryable : JsValue -> bool
}.

Section Engine.
Variable rt : Runtime.
Variable getStub : StubGetter.
Variable options : Options.
Variable prop : string.
Variable args : list JsValue.
Variable target : Stub.

(** Line 268: [attempt === 1 ? target : getStub()]. *)
Definition current_stub (attempt : Z) (tr : Trace) : Stub * Trace :=
  if attempt =? 1 then (target, tr)
  else let fresh := getStub tr in (fresh, tr ++ [EGetStub fresh]).

(** The [while] loop of lines 265-290 followed by [throw lastError]
    (line 292), from the loop head with the locals [attempt] and
    [lastError]. *)
Equations? retry_loop (attempt : Z) (lastError : JsValue) (tr : Trace)
    : Outcome * Trace
    by wf (Z.to_nat (maxAttempts options + 1 - attempt)) lt :=
  retry_loop attempt lastError tr
    with Z_le_gt_dec attempt (maxAttempts options) := {
    | right _ => (Rejected lastError, tr)
    | left _ with current_stub attempt tr := {
      | (currentStub, tr0) with rpc rt tr0 currentStub prop args := {
        | Resolved v => (Resolved v, tr0 ++ [ECall currentStub prop args])
        | Rejected err with isRetryable options err := {
          | false => (Rejected err, tr0 ++ [ECall currentStub prop args])
          | true with Z_ge_lt_dec attempt (maxAttempts options) := {
            | left _ => (Rejected err, tr0 ++ [ECall currentStub prop args])
            | right _ =>
                let tr1 := tr0 ++ [ECall currentStub prop args] in
                let r := math_random rt tr1 in
                let delay :=
                  jitterBackoff r attempt (baseDelayMs options)
                    (maxDelayMs options) in
                let tr2 := tr1 ++ [ERandom r; EWait delay] in
                retry_loop (attempt + 1) err tr2 } } } } }.
Proof. lia. Qed.

(** The [async (...args) => { ... }] closure of lines 261-293. *)
Definition retrying_call (tr : Trace) : Outcome * Trace :=
  let attempt := 1 in
  let lastError := JUndefined in
  retry_loop attempt lastError tr.

End Engine.

Record StubProxy : Type := {
  target : Stub;
  sp_getStub : StubGetter;
  sp_options : Options
}.

(** [createStubProxy], lines 241-247. *)
Definition createStubProxy (getStub : StubGetter) (options : Options)
    (tr : Trace) : StubProxy * Trace :=
  let stub := getStub tr in
  ({| target := stub; sp_getStub := getStub; sp_options := options |},
   tr ++ [EGetStub stub]).

(** The [get] trap of the stub proxy, lines 248-260. *)
Definition stub_proxy_get (rt : Runtime) (proxy : StubProxy) (prop : PropKey)
    : StubProxyMember :=
  let value := stub_member rt (target proxy) prop RProxy in
  match value with
  | MValue _ => SPValue value
  | MFunction _ =>
      match prop with
      | KSym _ => SPValue value
      | KStr name => SPRetrying name
      end
  end.

Definition stub_proxy_call (rt : Runtime) (proxy : StubProxy) (prop : string)
    (args : list JsValue) (tr : Trace) : Outcome * Trace :=
  retrying_call rt (sp_getStub proxy) (sp_options proxy) prop args
    (target proxy) tr.

(** Lines 318-322: [{ ...DEFAULT_OPTIONS, ...options,
    isRetryable: options?.isRetryable ?? isErrorRetryable }]. *)
Definition merge_options (options : option RetryOptions) : Options :=
  {| maxAttempts :=
       spread DEFAULT_maxAttempts
         (match options with Some o => ro_maxAttempts o | None => None end);
     baseDelayMs :=
       spread DEFAULT_baseDelayMs
         (match options with Some o => ro_baseDelayMs o | None => None end);
     maxDelayMs :=
       spread DEFAULT_maxDelayMs
         (match options with Some o => ro_maxDelayMs o | None => None end);
     isRetryable :=
       match match options with Some o => ro_isRetryable o | None => None end with
       | Some p => p
       | None => isErrorRetryable
       end |}.

(** [await withRetry(namespace, options).getByName(name)[prop](...args)]
    (lines 341-346, then the closure of line 261). *)
Definition getByName_then_call (rt : Runtime) (namespace : Namespace)
    (options : option RetryOptions) (name : JsValue) (prop : string)
    (args : list JsValue) (tr : Trace) : Outcome * Trace :=
  let opts := merge_options options in
  let getStub := fun tr' => ns_stub rt tr' namespace (ByName name JUndefined) in
  let (proxy, tr') := createStubProxy getStub opts tr in
  match stub_proxy_get rt proxy (KStr prop) with
  | SPRetrying name => stub_proxy_call rt proxy name args tr'
  | SPValue _ => (Rejected not_a_function, tr')
  end.

End RevB.

(* ===================================================================== *)
(** * Both revisions side by side *)
(* ===================================================================== *)

Inductive Revision : Type := RevisionA | RevisionB.

(** The decision a revision takes on an error under the configuration
    passed to [withRetry]: [true] when the error is retried while the
    budget lasts. *)
Definition classifier (rev : Revision) (options : option RetryOptions)
    (e : JsValue) : bool :=
  match rev with
  | RevisionA => RevA.reaches_retry_logic (RevA.merge_options options) e
  | RevisionB => RevB.isRetryable (RevB.merge_options options) e
  end.

(** A method call on a stub proxy that [withRetry(namespace, options)]
    handed out: [getStub] is the closure of the proxy, [target] the handle
    it holds. *)
Definition wrapped_call (rev : Revision) (rt : Runtime) (getStub : StubGetter)
    (options : option RetryOptions) (prop : string) (args : list JsValue)
    (target : Stub) (tr : Trace) : Outcome * Trace :=
  match rev with
  | RevisionA =>
      RevA.retrying_call rt getStub (RevA.merge_options options) prop args
        target tr
  | RevisionB =>
      RevB.retrying_call rt getStub (RevB.merge_options options) prop args
        target tr
  end.

(** A script for the method [prop] on [args]: its next [j] calls reject
    with an error [accepts] takes, the call after them resolves with
    [v]. *)
Definition fails_then_resolves (rt : Runtime) (prop : string)
    (args : list JsValue) (v : JsValue) (accepts : JsValue -> bool)
    (tr : Trace) (j : nat) : Prop :=
  (forall tr' s,
      (count_calls tr <= count_calls tr' < count_calls tr + j)%nat ->
      exists e, rpc rt tr' s prop args = Rejected e /\ accepts e = true)
  /\ (forall tr' s,
         count_calls tr' = (count_calls tr + j)%nat ->
         rpc rt tr' s prop args = Resolved v).

(* ===================================================================== *)
(** * The mock namespace of [retry-proxy.test.ts] *)
(* ===================================================================== *)

Module Mock.

(** [createRetryableError], [createOverloadedError],
    [createNonRetryableError] (lines 4-19 of the test file). *)
Definition createRetryableError (message : string) : JsValue :=
  JError None message [(decor "retryable", JBool true)].

Definition createOverloadedError (message : string) : JsValue :=
  JError None message
    [(decor "overloaded", JBool true); (decor "retryable", JBool true)].

Definition createNonRetryableError (message : string) : JsValue :=
  JError None message [].

(** [FAST_RETRY] *)
Definition FAST_RETRY : RetryOptions :=
  {| ro_maxAttempts := None; ro_baseDelayMs := Some (number_of_Z 1);
     ro_maxDelayMs := Some (number_of_Z 10); ro_isRetryable := None |}.

Definition with_maxAttempts (n : Z) (o : RetryOptions) : RetryOptions :=
  {| ro_maxAttempts := Some n; ro_baseDelayMs := ro_baseDelayMs o;
     ro_maxDelayMs := ro_maxDelayMs o; ro_isRetryable := ro_isRetryable o |}.

Definition with_isRetryable (p : JsValue -> bool) (o : RetryOptions)
    : RetryOptions :=
  {| ro_maxAttempts := ro_maxAttempts o; ro_baseDelayMs := ro_baseDelayMs o;
     ro_maxDelayMs := ro_maxDelayMs o; ro_isRetryable := Some p |}.

(** The function values of the mock namespace. *)
Definition fn_get : FunctionId := 0%nat.
Definition fn_getByName : FunctionId := 1%nat.
Definition fn_idFromName : FunctionId := 2%nat.
Definition fn_idFromString : FunctionId := 3%nat.
Definition fn_newUniqueId : FunctionId := 4%nat.
Definition fn_jurisdiction : FunctionId := 5%nat.
Definition fn_testMethod : FunctionId := 6%nat.

Definition ns_members (prop : PropKey) : Member :=
  match prop with
  | KStr name =>
      if String.eqb name "get" then MFunction fn_get
      else if String.eqb name "getByName" then MFunction fn_getByName
      else if String.eqb name "idFromName" then MFunction fn_idFromName
      else if String.eqb name "idFromString" then MFunction fn_idFromString
      else if String.eqb name "newUniqueId" then MFunction fn_newUniqueId
      else if String.eqb name "jurisdiction" then MFunction fn_jurisdiction
      else MValue JUndefined
  | KSym _ => MValue JUndefined
  end.

(** [createStub]: [{ id, name: 'test-stub', testMethod: mockMethod }]. *)
Definition stub_members (prop : PropKey) : Member :=
  match prop with
  | KStr name =>
      if String.eqb name "id" then MValue (JObject [])
      else if String.eqb name "name" then MValue (JStr "test-stub")
      else if String.eqb name "testMethod" then MFunction fn_testMethod
      else MValue JUndefined
  | KSym _ => MValue JUndefined
  end.

(** [mockMethod] after [mockRejectedValueOnce]/[mockResolvedValue]: the
    n-th call answers with the n-th entry of [script], later calls with
    [final]. *)
Definition mockMethod (script : list Outcome) (final : Outcome) (tr : Trace)
    : Outcome :=
  nth (count_calls tr) script final.

(** Each [createStub()] makes a new object, different from every stub
    seen so far. *)
Definition createStub (tr : Trace) : Stub := S (list_max (handles_of tr)).

(** The mocked [Math.random()] answers [0.5]. *)
Definition draw : Number := number_pow2 (-1).

Definition runtime (script : list Outcome) (final : Outcome) : Runtime :=
  {| rpc := fun tr _ _ _ => mockMethod script final tr;
     math_random := fun _ => draw;
     ns_stub := fun tr _ _ => createStub tr;
     ns_jurisdiction := fun _ ns _ => S ns;
     stub_member := fun _ prop _ => stub_members prop;
     ns_member := fun _ prop _ => ns_members prop;
     fn_apply :=
       fun _ _ _ args => Resolved (JObject [(own "id", nth 0 args JUndefined)]) |}.

Definition namespace : Namespace := 0%nat.

End Mock.

(* ===================================================================== *)
(** * Further observations on runs *)
(* ===================================================================== *)

(** The backoff base and cap of a configuration as passed to
    [withRetry]. *)
Definition baseDelayMs_of (options : option RetryOptions) : Number :=
  spread DEFAULT_baseDelayMs
    (match options with Some o => ro_baseDelayMs o | None => None end).

Definition maxDelayMs_of (options : option RetryOptions) : Number :=
  spread DEFAULT_maxDelayMs
    (match options with Some o => ro_maxDelayMs o | None => None end).

(** The delays handed to [scheduler.wait] and the draws of
    [Math.random()], in order. *)
Fixpoint wait_delays (tr : Trace) : list Number :=
  match tr with
  | [] => []
  | EWait d :: rest => d :: wait_delays rest
  | _ :: rest => wait_delays rest
  end.

Fixpoint random_draws (tr : Trace) : list Number :=
  match tr with
  | [] => []
  | ERandom r :: rest => r :: random_draws rest
  | _ :: rest => random_draws rest
  end.

(** The backoff schedule: the delays [jitterBackoff] computes from a
    list of draws when the first is used at attempt [attempt], the second
    at [attempt + 1], and so on. *)
Fixpoint backoff_schedule (attempt : Z) (baseDelayMs maxDelayMs : Number)
    (draws : list Number) : list Number :=
  match draws with
  | [] => []
  | r :: rest =>
      jitterBackoff r attempt baseDelayMs maxDelayMs
      :: backoff_schedule (attempt + 1) baseDelayMs maxDelayMs rest
  end.

(** The waits of a run that starts at attempt [attempt] with budget [N]
    follow the schedule: they are the delays [jitterBackoff] computes from
    the draws of the run, one per draw; every draw is an answer of the
    host's [Math.random()]; and there are at most [N - attempt] of them. *)
Definition follows_schedule (rt : Runtime) (N : Z) (base M : Number)
    (attempt : Z) (ext : Trace) : Prop :=
  wait_delays ext = backoff_schedule attempt base M (random_draws ext)
  /\ (forall r, In r (random_draws ext) -> exists tr', r = math_random rt tr')
  /\ Z.of_nat (List.length (random_draws ext)) <= Z.max 0 (N - attempt).

(** The handles the getter returned, in order. *)
Fixpoint acquired_handles (tr : Trace) : list Stub :=
  match tr with
  | [] => []
  | EGetStub s :: rest => s :: acquired_handles rest
  | _ :: rest => acquired_handles rest
  end.

(** The address a handle obtained through [via] is acquired with:
    [get(id)] passes on its first argument, [getByName(name, options)]
    its first two. *)
Definition address_of (via : string) (acquire : list JsValue) : Addr :=
  if String.eqb via "get" then ById (nth 0 acquire JUndefined)
  else ByName (nth 0 acquire JUndefined) (nth 1 acquire JUndefined).

(** Replaying [ext] after [before]: every method call that is followed by
    another method call rejected with an error that [accepts] takes. *)
Fixpoint retried_calls_accepted (rt : Runtime) (accepts : JsValue -> bool)
    (before ext : Trace) : Prop :=
  match ext with
  | [] => True
  | ev :: rest =>
      match ev with
      | ECall s p a =>
          (1 <= count_calls rest)%nat ->
          exists e, rpc rt before s p a = Rejected e /\ accepts e = true
      | _ => True
      end
      /\ retried_calls_accepted rt accepts (before ++ [ev]) rest
  end.

(** [await withRetry(namespace, options)[via](...acquire)[prop](...args)]
    in revision A, for [via] one of ['get'] and ['getByName']. *)
Definition acquire_then_call (rt : Runtime) (namespace : Namespace)
    (options : option RetryOptions) (via : string) (acquire : list JsValue)
    (prop : string) (args : list JsValue) (tr : Trace) : Outcome * Trace :=
  match RevA.namespace_proxy_call rt (RevA.withRetry namespace options)
          (KStr via) acquire tr with
  | (RevA.RStub proxy, tr') =>
      match RevA.stub_proxy_get rt proxy (KStr prop) with
      | SPRetrying name => RevA.stub_proxy_call rt proxy name args tr'
      | SPValue _ => (Rejected not_a_function, tr')
      end
  | (_, tr') => (Rejected not_a_function, tr')
  end.

Ltac conjs := repeat match goal with |- _ /\ _ => split end.

(* ===================================================================== *)
(** * Strings *)
(* ===================================================================== *)



(* ===================================================================== *)
(** * The error classifier *)
(* ===================================================================== *)







Example retryable_error_classified :
  isErrorRetryable (Mock.createRetryableError "transient-1") = true.
Proof. reflexivity. Qed.

Example overloaded_error_classified :
  isErrorRetryable (Mock.createOverloadedError "overloaded") = false.
Proof. reflexivity. Qed.

Example overload_text_classified :
  isErrorRetryable
    (JError None "Durable Object is overloaded. Too many requests"
       [(decor "retryable", JBool true)]) = false.
Proof. reflexivity. Qed.

(** The text counts wherever the rendering shows it, also in the name:
    [e.name = 'Durable Object is overloaded'] on [new Error('x')]. *)
Example overload_name_classified :
  String_ (JError (Some "Durable Object is overloaded") "x"
             [(decor "retryable", JBool true)])
  = "Durable Object is overloaded: x"
  /\ isErrorRetryable
       (JError (Some "Durable Object is overloaded") "x"
          [(decor "retryable", JBool true)]) = false.
Proof. split; reflexivity. Qed.

(** A plain object renders as "[object Object]" whatever it holds. *)
Example plain_object_classified :
  isErrorRetryable
    (JObject [(own "message", JStr "Durable Object is overloaded");
              (own "retryable", JBool true)]) = true.
Proof. reflexivity. Qed.

Example plain_error_classified :
  isErrorRetryable (Mock.createNonRetryableError "fatal") = false.
Proof. reflexivity. Qed.

Example truthy_marker_classified :
  isErrorRetryable (JObject [(own "retryable", JNum (sint 1))]) = true
  /\ isErrorRetryable (JObject [(own "retryable", JNum (sint 0))]) = false
  /\ isErrorRetryable JUndefined = false.
Proof. repeat split. Qed.

(* ===================================================================== *)
(** * Rounding in binary64 *)
(* ===================================================================== *)

(** What [binary_round_aux] of the Standard Library computes on a positive
    mantissa: the quotient by the power of two that brings it down to 53
    bits, rounded to nearest, renormalised, and tested for overflow. *)

Lemma iter_pos_nat {A} (f : A -> A) (p : positive) (x : A) :
  iter_pos f p x = Nat.iter (Pos.to_nat p) f x.
Proof.
  revert x. induction p as [p IH|p IH|]; intros x; cbn [iter_pos].
  - rewrite !IH. rewrite Pos2Nat.inj_xI.
    replace (S (2 * Pos.to_nat p))%nat with (Pos.to_nat p + S (Pos.to_nat p))%nat by lia.
    rewrite Nat.iter_add. f_equal. rewrite Nat.iter_succ_r. reflexivity.
  - rewrite !IH. rewrite Pos2Nat.inj_xO.
    replace (2 * Pos.to_nat p)%nat with (Pos.to_nat p + Pos.to_nat p)%nat by lia.
    rewrite Nat.iter_add. reflexivity.
  - reflexivity.
Qed.

Lemma shr_1_spec (mrs : shr_record) :
  0 <= shr_m mrs ->
  shr_m (shr_1 mrs) = shr_m mrs / 2 /\ shr_r (shr_1 mrs) = Z.odd (shr_m mrs).
Proof.
  destruct mrs as [m r s]. cbn [shr_m]. intros Hm.
  destruct m as [|p|p]; [split; reflexivity| |lia].
  destruct p as [p|p|]; cbn [shr_1 shr_m shr_r].
  - split; [|reflexivity]. rewrite Pos2Z.inj_xI. 
    apply Z.div_unique with (r := 1); lia.
  - split; [|reflexivity]. rewrite Pos2Z.inj_xO.
    apply Z.div_unique with (r := 0); lia.
  - split; reflexivity.
Qed.

Lemma shr_iter_spec (M : Z) (k : nat) :
  0 <= M ->
  let mrs := Nat.iter k shr_1 (Build_shr_record M false false) in
  shr_m mrs = M / 2 ^ Z.of_nat k /\
  shr_r mrs = (2 ^ Z.of_nat k <=? 2 * (M mod 2 ^ Z.of_nat k)).
Proof.
  intros HM. induction k as [|k IH].
  - cbn. rewrite Z.div_1_r, Z.mod_1_r. split; reflexivity.
  - cbn zeta in *. rewrite Nat.iter_succ.
    set (mrs := Nat.iter k shr_1 _) in *. destruct IH as [IHm IHr].
    assert (Hpos : 0 < 2 ^ Z.of_nat k) by (apply Z.pow_pos_nonneg; lia).
    assert (Hm0 : 0 <= shr_m mrs) by (rewrite IHm; apply Z.div_pos; lia).
    destruct (shr_1_spec mrs Hm0) as [H1 H2]. rewrite H1, H2, IHm.
    rewrite Nat2Z.inj_succ, Z.pow_succ_r by lia.
    split.
    + rewrite Z.div_div by lia. f_equal. lia.
    + pose proof (Z.div_mod M (2 ^ Z.of_nat k) ltac:(lia)) as Hd.
      pose proof (Z.mod_pos_bound M (2 ^ Z.of_nat k) Hpos) as Hb.
      set (q := M / 2 ^ Z.of_nat k) in *. set (rm := M mod 2 ^ Z.of_nat k) in *.
      pose proof (Z.div_mod q 2 ltac:(lia)) as Hq.
      pose proof (Z.mod_pos_bound q 2 ltac:(lia)) as Hqb.
      assert (Hmod : M mod (2 * 2 ^ Z.of_nat k) = (q mod 2) * 2 ^ Z.of_nat k + rm).
      { symmetry. apply Z.mod_unique with (q := q / 2); [left; nia | nia]. }
      rewrite Hmod. rewrite Zodd_mod.
      destruct (Z.eqb_spec (q mod 2) 1) as [E|E].
      * symmetry. apply Z.leb_le. rewrite E. lia.
      * symmetry. apply Z.leb_gt. assert (q mod 2 = 0) by lia. nia.
Qed.

Lemma shr_spec (M e n : Z) :
  0 <= M -> 0 <= n ->
  let '(mrs, e') := shr (Build_shr_record M false false) e n in
  e' = e + n /\ shr_m mrs = M / 2 ^ n /\ shr_r mrs = (2 ^ n <=? 2 * (M mod 2 ^ n)).
Proof.
  intros HM Hn. unfold shr. destruct n as [|p|p]; [| |lia].
  - cbn [shr_m shr_r]. rewrite Z.div_1_r, Z.mod_1_r. repeat split; lia.
  - rewrite iter_pos_nat. pose proof (shr_iter_spec M (Pos.to_nat p) HM) as H.
    cbn zeta in H. rewrite positive_nat_Z in H. destruct H as [H1 H2].
    repeat split; assumption.
Qed.

Lemma digits2_pos_size (m : positive) : digits2_pos m = Pos.size m.
Proof. induction m; cbn; congruence. Qed.

Lemma Zdigits2_bounds (P : Z) :
  0 < P -> 2 ^ (Zdigits2 P - 1) <= P < 2 ^ Zdigits2 P.
Proof.
  intros HP. destruct P as [|p|p]; try lia. cbn [Zdigits2].
  rewrite digits2_pos_size.
  pose proof (Pos.size_gt p) as Hgt. pose proof (Pos.size_le p) as Hle.
  split.
  - assert (2 ^ Z.pos (Pos.size p) <= 2 * Z.pos p).
    { rewrite <- Pos2Z.inj_pow. change (2 * Z.pos p) with (Z.pos p~0). lia. }
    replace (Z.pos (Pos.size p)) with (Z.succ (Z.pos (Pos.size p) - 1)) in H by lia.
    rewrite Z.pow_succ_r in H by lia. lia.
  - rewrite <- Pos2Z.inj_pow. lia.
Qed.

Lemma Zdigits2_unique (P d : Z) :
  2 ^ (d - 1) <= P < 2 ^ d -> 0 < P -> Zdigits2 P = d.
Proof.
  intros [H1 H2] HP. pose proof (Zdigits2_bounds P HP) as [B1 B2].
  assert (Hd : 0 < d).
  { destruct (Z_lt_le_dec 0 d); [assumption|].
    assert (2 ^ d <= 2 ^ 0) by (destruct (Z.eq_dec d 0); [subst; lia | rewrite Z.pow_neg_r by lia; lia]).
    change (2 ^ 0) with 1 in H. lia. }
  assert (Hd' : 0 < Zdigits2 P) by (destruct P; cbn; lia).
  destruct (Z_lt_le_dec (Zdigits2 P) d) as [L|L].
  - assert (2 ^ Zdigits2 P <= 2 ^ (d - 1)) by (apply Z.pow_le_mono_r; lia). lia.
  - destruct (Z_lt_le_dec d (Zdigits2 P)) as [L'|L']; [|lia].
    assert (2 ^ d <= 2 ^ (Zdigits2 P - 1)) by (apply Z.pow_le_mono_r; lia). lia.
Qed.

Lemma fexp_eq (e : Z) : fexp prec emax e = Z.max (e - 53) (-1074).
Proof. reflexivity. Qed.

Lemma shr_nonpos (mrs : shr_record) (e n : Z) : n <= 0 -> shr mrs e n = (mrs, e).
Proof. intros Hn. unfold shr. destruct n; try reflexivity. lia. Qed.

Lemma round_nearest_even_bounds (mrs : shr_record) :
  let R := round_nearest_even (shr_m mrs) (loc_of_shr_record mrs) in
  shr_m mrs <= R <= shr_m mrs + 1 /\ (shr_r mrs = false -> R = shr_m mrs).
Proof.
  destruct mrs as [m [|] [|]]; cbn; try destruct (Z.even m); split; try lia; try discriminate; reflexivity.
Qed.

Lemma binary_round_aux_spec (s : bool) (P E : Z) :
  0 < P -> E <= fexp prec emax (Zdigits2 P + E) ->
  exists R,
    P / 2 ^ (fexp prec emax (Zdigits2 P + E) - E) <= R <= P / 2 ^ (fexp prec emax (Zdigits2 P + E) - E) + 1 /\
    (2 * (P mod 2 ^ (fexp prec emax (Zdigits2 P + E) - E)) < 2 ^ (fexp prec emax (Zdigits2 P + E) - E) ->
     R = P / 2 ^ (fexp prec emax (Zdigits2 P + E) - E)) /\
    R <= 2 ^ 53 /\
    binary_round_aux prec emax s P E loc_Exact = normalised s R (fexp prec emax (Zdigits2 P + E)).
Proof.
  intros HP Hn.
  set (e1 := fexp prec emax (Zdigits2 P + E)) in *.
  set (n := e1 - E).
  assert (Hn0 : 0 <= n) by (unfold n; lia).
  unfold binary_round_aux, shr_fexp. fold e1. fold n.
  change (shr_record_of_loc P loc_Exact) with (Build_shr_record P false false).
  pose proof (shr_spec P E n ltac:(lia) Hn0) as Hs.
  destruct (shr (Build_shr_record P false false) E n) as [mrs e'].
  destruct Hs as (He' & Hm & Hr).
  pose proof (round_nearest_even_bounds mrs) as [HR1 HR2]. cbn zeta in HR1, HR2.
  set (R := round_nearest_even (shr_m mrs) (loc_of_shr_record mrs)) in *.
  assert (Hpow : 0 < 2 ^ n) by (apply Z.pow_pos_nonneg; lia).
  assert (Hq0 : 0 <= P / 2 ^ n) by (apply Z.div_pos; lia).
  assert (Hq53 : P / 2 ^ n < 2 ^ 53).
  { pose proof (Zdigits2_bounds P HP) as [_ Hd].
    apply Z.div_lt_upper_bound; [lia|].
    rewrite <- Z.pow_add_r by lia.
    eapply Z.lt_le_trans; [exact Hd|].
    assert (0 < Zdigits2 P) by (destruct P; cbn; lia).
    apply Z.pow_le_mono_r; [lia|].
    unfold n, e1. rewrite fexp_eq. lia. }
  assert (He1 : e' = e1) by (unfold n in He'; lia).
  clear He'.
  assert (Hemin : -1074 <= e1) by (unfold e1; rewrite fexp_eq; lia).
  exists R. rewrite <- Hm. split; [exact HR1|]. split.
  { intros Hlt. apply HR2. rewrite Hr. apply Z.leb_gt. exact Hlt. }
  split; [rewrite Hm in HR1; lia|].
  rewrite Hm in HR1. rewrite He1. clear He1 e'.
  change (shr_record_of_loc R loc_Exact) with (Build_shr_record R false false).
  unfold normalised.
  destruct (Z.eqb_spec R 0) as [R0|R0].
  { rewrite R0. rewrite shr_nonpos by (cbn [Zdigits2]; rewrite fexp_eq; lia). reflexivity. }
  destruct (Z.eqb_spec R (2 ^ prec)) as [R53|R53].
  { rewrite R53. 
    replace (fexp prec emax (Zdigits2 (2 ^ prec) + e1) - e1) with 1
      by (change (Zdigits2 (2 ^ prec)) with 54; rewrite fexp_eq; lia).
    unfold overflow_or. cbn [shr iter_pos]. reflexivity. }
  assert (HRpos : 0 < R) by lia.
  assert (HRlt : R < 2 ^ 53) by (change (2 ^ prec) with (2 ^ 53) in R53; lia).
  rewrite shr_nonpos.
  - cbn [shr_m]. destruct R as [|p|p]; try lia. reflexivity.
  - pose proof (Zdigits2_bounds R HRpos) as [Hd _].
    assert (Zdigits2 R <= 53).
    { destruct (Z_le_gt_dec (Zdigits2 R) 53); [assumption|].
      assert (2 ^ 53 <= 2 ^ (Zdigits2 R - 1)) by (apply Z.pow_le_mono_r; lia). lia. }
    rewrite fexp_eq. lia.
Qed.

Lemma quotient_normal (P E : Z) :
  0 < P -> E <= fexp prec emax (Zdigits2 P + E) -> -1074 < fexp prec emax (Zdigits2 P + E) ->
  2 ^ 52 <= P / 2 ^ (fexp prec emax (Zdigits2 P + E) - E).
Proof.
  intros HP Hn He. rewrite fexp_eq in *.
  pose proof (Zdigits2_bounds P HP) as [Hd _].
  assert (Hd53 : 53 <= Zdigits2 P) by lia.
  replace (Z.max (Zdigits2 P + E - 53) (-1074) - E) with (Zdigits2 P - 53) by lia.
  apply Z.div_le_lower_bound; [apply Z.pow_pos_nonneg; lia|].
  rewrite Z.mul_comm, <- Z.pow_add_r by lia.
  replace (52 + (Zdigits2 P - 53)) with (Zdigits2 P - 1) by lia. exact Hd.
Qed.

Lemma bounded_iff (m : positive) (e : Z) :
  bounded prec emax m e = true <->
  e <= 971 /\ -1074 <= e /\ Z.pos m < 2 ^ 53 /\ (e = -1074 \/ 2 ^ 52 <= Z.pos m).
Proof.
  unfold bounded, canonical_mantissa. rewrite andb_true_iff, Z.eqb_eq, Z.leb_le, fexp_eq.
  change (Z.pos (digits2_pos m)) with (Zdigits2 (Z.pos m)).
  pose proof (Zdigits2_bounds (Z.pos m) ltac:(lia)) as [B1 B2].
  change (emax - prec) with 971.
  split.
  - intros [Hc He]. split; [lia|]. split; [lia|].
    assert (Hd : Zdigits2 (Z.pos m) <= 53) by lia.
    split.
    + eapply Z.lt_le_trans; [exact B2|]. apply Z.pow_le_mono_r; lia.
    + destruct (Z.eq_dec e (-1074)) as [E|E]; [left; exact E|right].
      assert (Zdigits2 (Z.pos m) = 53) by lia.
      rewrite H in B1. exact B1.
  - intros (He & Hm & Hlt & Hn). split; [|lia].
    assert (Hd : Zdigits2 (Z.pos m) <= 53).
    { destruct (Z_le_gt_dec (Zdigits2 (Z.pos m)) 53); [assumption|].
      assert (2 ^ 53 <= 2 ^ (Zdigits2 (Z.pos m) - 1)) by (apply Z.pow_le_mono_r; lia). lia. }
    destruct Hn as [Hn|Hn]; [lia|].
    assert (53 <= Zdigits2 (Z.pos m)).
    { destruct (Z_le_gt_dec 53 (Zdigits2 (Z.pos m))); [assumption|].
      assert (2 ^ Zdigits2 (Z.pos m) <= 2 ^ 52) by (apply Z.pow_le_mono_r; lia). lia. }
    lia.
Qed.

Lemma normalised_shape (s : bool) (R e : Z) :
  0 <= R <= 2 ^ 53 -> -1074 <= e -> (e = -1074 \/ 2 ^ 52 <= R) ->
  normalised s R e = S754_zero s \/
  normalised s R e = S754_infinity s \/
  exists m e', normalised s R e = S754_finite s m e' /\ bounded prec emax m e' = true /\
               ((R = 2 ^ 53 /\ Z.pos m = 2 ^ 52 /\ e' = e + 1) \/ (R < 2 ^ 53 /\ Z.pos m = R /\ e' = e)).
Proof.
  intros HR He Hn. unfold normalised, overflow_or. change (emax - prec) with 971.
  destruct (Z.eqb_spec R 0) as [R0|R0]; [left; reflexivity|right].
  destruct (Z.eqb_spec R (2 ^ prec)) as [R53|R53].
  - destruct (Z.leb_spec (e + 1) 971) as [L|L]; [right|left; reflexivity].
    exists (Z.to_pos (2 ^ (prec - 1))), (e + 1). split; [reflexivity|]. split.
    + apply bounded_iff. change (Z.pos (Z.to_pos (2 ^ (prec - 1)))) with (2 ^ 52). lia.
    + left. change (2 ^ prec) with (2 ^ 53) in R53. repeat split; try assumption.
  - destruct (Z.leb_spec e 971) as [L|L]; [right|left; reflexivity].
    change (2 ^ prec) with (2 ^ 53) in R53.
    exists (Z.to_pos R), e. split; [reflexivity|].
    assert (HRp : Z.pos (Z.to_pos R) = R) by (apply Z2Pos.id; lia).
    split.
    + apply bounded_iff. rewrite HRp. lia.
    + right. repeat split; try assumption; lia.
Qed.

(* mantissas of two valid operands: the exact product needs no left shift *)
Lemma product_exponent (mx my : positive) (ex ey : Z) :
  bounded prec emax mx ex = true -> bounded prec emax my ey = true ->
  ex + ey <= fexp prec emax (Zdigits2 (Z.pos (mx * my)) + (ex + ey)).
Proof.
  intros Hx Hy. apply bounded_iff in Hx, Hy. rewrite fexp_eq.
  destruct Hx as (_ & Hx1 & _ & Hx), Hy as (_ & Hy1 & _ & Hy).
  pose proof (Zdigits2_bounds (Z.pos (mx * my)) ltac:(lia)) as [_ B].
  assert (H53 : 2 ^ 52 <= Z.pos (mx * my) -> 53 <= Zdigits2 (Z.pos (mx * my))).
  { intros H. destruct (Z_le_gt_dec 53 (Zdigits2 (Z.pos (mx * my)))); [assumption|].
    assert (2 ^ Zdigits2 (Z.pos (mx * my)) <= 2 ^ 52).
    { destruct (Z_le_gt_dec 0 (Zdigits2 (Z.pos (mx * my)))).
      - apply Z.pow_le_mono_r; lia.
      - rewrite Z.pow_neg_r by lia. lia. }
    lia. }
  rewrite Pos2Z.inj_mul in *.
  destruct Hx as [Hx|Hx]; destruct Hy as [Hy|Hy]; try lia;
    assert (2 ^ 52 <= Z.pos mx * Z.pos my) by nia; lia.
Qed.

Lemma SFmul_finite_spec (sx sy : bool) (mx my : positive) (ex ey : Z) :
  bounded prec emax mx ex = true -> bounded prec emax my ey = true ->
  let P := Z.pos mx * Z.pos my in
  let e1 := fexp prec emax (Zdigits2 P + (ex + ey)) in
  let n := e1 - (ex + ey) in
  exists R,
    0 <= n /\ -1074 <= e1 /\
    P / 2 ^ n <= R <= P / 2 ^ n + 1 /\
    (2 * (P mod 2 ^ n) < 2 ^ n -> R = P / 2 ^ n) /\
    0 <= R <= 2 ^ 53 /\ (e1 = -1074 \/ 2 ^ 52 <= R) /\
    SFmul prec emax (S754_finite sx mx ex) (S754_finite sy my ey) = normalised (xorb sx sy) R e1.
Proof.
  intros Hx Hy P e1 n.
  pose proof (product_exponent mx my ex ey Hx Hy) as Hn.
  rewrite Pos2Z.inj_mul in Hn. fold P in Hn. fold e1 in Hn.
  assert (HP : 0 < P) by (unfold P; lia).
  destruct (binary_round_aux_spec (xorb sx sy) P (ex + ey) HP Hn) as (R & HR1 & HR2 & HR3 & HR4).
  fold e1 in HR1, HR2, HR4. fold n in HR1, HR2.
  exists R.
  assert (Hq : 0 <= P / 2 ^ n) by (apply Z.div_pos; [lia | apply Z.pow_pos_nonneg; unfold n; lia]).
  split; [unfold n; lia|]. split; [unfold e1; rewrite fexp_eq; lia|].
  split; [exact HR1|]. split; [exact HR2|]. split; [lia|]. split.
  - destruct (Z.eq_dec e1 (-1074)) as [E|E]; [left; exact E|right].
    assert (-1074 < e1) by (unfold e1 in *; rewrite fexp_eq in *; lia).
    pose proof (quotient_normal P (ex + ey) HP Hn H). fold e1 in H0. fold n in H0. lia.
  - cbn [SFmul]. rewrite <- HR4. unfold P. rewrite <- Pos2Z.inj_mul. reflexivity.
Qed.

(** ** A draw below one never lifts a product above the other factor *)

Lemma overflow_or_finite (s : bool) (m e : Z) :
  e <= 971 -> overflow_or s m e = S754_finite s (Z.to_pos m) e.
Proof.
  intros He. unfold overflow_or. change (emax - prec) with 971.
  destruct (Z.leb_spec e 971); [reflexivity | lia].
Qed.

Lemma pow2_split (a b : Z) : 0 <= a -> 0 <= b -> 2 ^ (a + b) = 2 ^ a * 2 ^ b.
Proof. intros. apply Z.pow_add_r; assumption. Qed.

Lemma scaled_below (mr mc X K : Z) :
  0 < mc -> mr < X -> 1 <= K -> 0 < X -> mr * mc + mc * K <= mc * (X * K).
Proof.
  intros Hmc Hmr HK HX.
  assert (mr * mc <= (X - 1) * mc) by (apply Z.mul_le_mono_nonneg_r; lia).
  assert (0 <= (X - 1) * (K - 1)) by (apply Z.mul_nonneg_nonneg; lia).
  assert (mc * (X - 1 + K) <= mc * (X * K)) by (apply Z.mul_le_mono_nonneg_l; lia).
  lia.
Qed.

Lemma quotient_below (P q rm T C : Z) :
  P = T * q + rm -> 0 <= rm -> 0 < T -> P < C * T -> q < C.
Proof.
  intros HP Hrm HT Hlt.
  destruct (Z_lt_le_dec q C) as [L|L]; [exact L|exfalso].
  assert (T * C <= T * q) by (apply Z.mul_le_mono_nonneg_l; lia). lia.
Qed.

Lemma rounded_below (P q rm T C M : Z) :
  P = T * q + rm -> 0 <= rm -> 0 < T -> P + M <= C * T -> T < 2 * M ->
  q <= C - 1 /\ (T <= 2 * rm -> q + 1 <= C - 1).
Proof.
  intros HP Hrm HT HM HTM. split.
  - assert (q < C) by (apply (quotient_below P q rm T C); lia). lia.
  - intros Hhalf.
    assert (q + 1 < C); [|lia].
    destruct (Z_lt_le_dec (q + 1) C) as [L|L]; [exact L|exfalso].
    assert (T * C <= T * (q + 1)) by (apply Z.mul_le_mono_nonneg_l; lia). lia.
Qed.

Lemma mul_unit_bound (mr mc : positive) (er ec : Z) :
  bounded prec emax mr er = true -> er <= -53 -> bounded prec emax mc ec = true ->
  let z := SFmul prec emax (S754_finite false mr er) (S754_finite false mc ec) in
  z = S754_zero false \/
  exists mz ez, z = S754_finite false mz ez /\ bounded prec emax mz ez = true /\
    (ez < ec \/ (ez = ec /\ Z.pos mz <= Z.pos mc)) /\
    (2 ^ 52 <= Z.pos mc -> -52 <= ec -> ez < ec \/ (ez = ec /\ Z.pos mz < Z.pos mc)).
Proof.
  intros Hr Her Hc z.
  destruct (SFmul_finite_spec false false mr mc er ec Hr Hc)
    as (R & Hn & Hemin & HR1 & HR2 & HR3 & HR4 & Hz).
  cbn zeta in *. change (xorb false false) with false in Hz. fold z in Hz.
  apply bounded_iff in Hr, Hc.
  destruct Hr as (_ & Hr1 & Hr2 & _). destruct Hc as (Hc0 & Hc1 & Hc2 & Hc3).
  set (P := Z.pos mr * Z.pos mc) in *.
  set (e1 := fexp prec emax (Zdigits2 P + (er + ec))) in *.
  set (n := e1 - (er + ec)) in *.
  assert (HP : 0 < P) by (unfold P; lia).
  pose proof (Zdigits2_bounds P HP) as [Hd1 Hd2].
  set (k := - er - 53).
  assert (Hk : 0 <= k) by (unfold k; lia).
  assert (Hper : 2 ^ (- er) = 2 ^ 53 * 2 ^ k).
  { replace (- er) with (53 + k) by (unfold k; lia). apply pow2_split; lia. }
  assert (Hk1 : 1 <= 2 ^ k) by (pose proof (Z.pow_pos_nonneg 2 k ltac:(lia) Hk); lia).
  (* the product stays below the second factor scaled by 2^(-er) *)
  assert (HPlt : P + Z.pos mc * 2 ^ k <= Z.pos mc * 2 ^ (- er)).
  { rewrite Hper. unfold P. apply scaled_below; lia. }
  assert (Hdig : Zdigits2 P - 1 < 53 - er).
  { destruct (Z_lt_le_dec (Zdigits2 P - 1) (53 - er)) as [L|L]; [exact L|exfalso].
    assert (H : 2 ^ (53 - er) <= 2 ^ (Zdigits2 P - 1)) by (apply Z.pow_le_mono_r; lia).
    replace (53 - er) with (53 + - er) in H by lia.
    rewrite pow2_split in H by lia.
    assert (Z.pos mc * 2 ^ (- er) <= 2 ^ 53 * 2 ^ (- er)).
    { apply Z.mul_le_mono_nonneg_r; [|lia]. apply Z.pow_nonneg; lia. }
    assert (0 < Z.pos mc * 2 ^ k) by (apply Z.mul_pos_pos; lia).
    lia. }
  assert (He1 : e1 <= ec) by (unfold e1; rewrite fexp_eq; lia).
  set (C := Z.pos mc * 2 ^ (ec - e1)).
  assert (HT : 0 < 2 ^ n) by (apply Z.pow_pos_nonneg; lia).
  assert (HC : C * 2 ^ n = Z.pos mc * 2 ^ (- er)).
  { unfold C. rewrite <- Z.mul_assoc, <- pow2_split by lia. f_equal. f_equal. unfold n. lia. }
  pose proof (Z.div_mod P (2 ^ n) ltac:(lia)) as Hdm.
  pose proof (Z.mod_pos_bound P (2 ^ n) HT) as Hmb.
  set (q := P / 2 ^ n) in *. set (rm := P mod 2 ^ n) in *.
  assert (HMpos : 0 < Z.pos mc * 2 ^ k) by (apply Z.mul_pos_pos; lia).
  assert (HRC : R <= C).
  { assert (q < C) by (apply (quotient_below P q rm (2 ^ n) C); lia). lia. }
  assert (HCe : e1 = ec -> C = Z.pos mc).
  { intros E. unfold C. rewrite E, Z.sub_diag. lia. }
  assert (HCs1 : e1 + 1 = ec -> C = 2 * Z.pos mc).
  { intros E. unfold C. replace (ec - e1) with 1 by lia. lia. }
  assert (Hstrict : 2 ^ 52 <= Z.pos mc -> -52 <= ec -> R <= C - 1).
  { intros Hm52 Hec.
    assert (Hpn : 2 ^ n < 2 * (Z.pos mc * 2 ^ k)).
    { destruct (Z_lt_le_dec e1 ec) as [L|L].
      - assert (H : 2 ^ n <= 2 ^ (52 + k)) by (apply Z.pow_le_mono_r; unfold n, k; lia).
        rewrite pow2_split in H by lia.
        assert (2 ^ 52 * 2 ^ k <= Z.pos mc * 2 ^ k) by (apply Z.mul_le_mono_nonneg_r; lia).
        lia.
      - assert (E : e1 = ec) by lia.
        assert (Hn' : n = 53 + k) by (unfold n, k; lia).
        rewrite Hn', pow2_split by lia.
        assert (Hlt : 2 ^ 52 < Z.pos mc).
        { destruct (Z.eq_dec (Z.pos mc) (2 ^ 52)) as [Em|Em]; [exfalso|lia].
          assert (Hd : Zdigits2 P = 53 - er).
          { unfold e1 in E. rewrite fexp_eq in E. lia. }
          rewrite Hd in Hd1. replace (53 - er - 1) with (52 + - er) in Hd1 by lia.
          rewrite pow2_split in Hd1 by lia. rewrite Em in HPlt, HMpos. lia. }
        assert ((2 ^ 52 + 1) * 2 ^ k <= Z.pos mc * 2 ^ k) by (apply Z.mul_le_mono_nonneg_r; lia).
        change (2 ^ 53) with (2 * 2 ^ 52). lia. }
    assert (Hq : q <= C - 1 /\ (2 ^ n <= 2 * rm -> q + 1 <= C - 1)).
    { apply (rounded_below P q rm (2 ^ n) C (Z.pos mc * 2 ^ k)); lia. }
    destruct Hq as [Hq1 Hq2].
    destruct (Z_lt_le_dec (2 * rm) (2 ^ n)) as [l|l].
    - specialize (HR2 l). lia.
    - specialize (Hq2 l). lia. }
  assert (Hm53 : C < 2 ^ 53 \/ e1 < ec).
  { destruct (Z_lt_le_dec e1 ec); [right; assumption|left]. rewrite HCe by lia. exact Hc2. }
  clear HPlt Hdig HC Hdm Hmb Hd1 Hd2 HR1 HR2 Hper.
  unfold normalised in Hz.
  destruct (Z.eqb_spec R 0) as [R0|R0]; [left; exact Hz|right].
  destruct (Z.eqb_spec R (2 ^ prec)) as [R53|R53].
  - change (2 ^ prec) with (2 ^ 53) in R53.
    assert (L : e1 < ec) by (destruct Hm53; [lia | assumption]).
    rewrite overflow_or_finite in Hz by lia.
    exists (Z.to_pos (2 ^ (prec - 1))), (e1 + 1). split; [exact Hz|].
    change (Z.pos (Z.to_pos (2 ^ (prec - 1)))) with (2 ^ 52).
    split; [apply bounded_iff; change (Z.pos (Z.to_pos (2 ^ (prec - 1)))) with (2 ^ 52); lia|].
    split.
    + destruct (Z.eq_dec (e1 + 1) ec) as [E|E]; [right|left; lia].
      split; [exact E|]. specialize (HCs1 E). lia.
    + intros Hm52 Hec. specialize (Hstrict Hm52 Hec).
      destruct (Z.eq_dec (e1 + 1) ec) as [E|E]; [right|left; lia].
      split; [exact E|]. specialize (HCs1 E). lia.
  - change (2 ^ prec) with (2 ^ 53) in R53.
    rewrite overflow_or_finite in Hz by lia.
    assert (HRp : Z.pos (Z.to_pos R) = R) by (apply Z2Pos.id; lia).
    exists (Z.to_pos R), e1. split; [exact Hz|]. rewrite HRp.
    split; [apply bounded_iff; rewrite HRp; lia|].
    split.
    + destruct (Z.eq_dec e1 ec) as [E|E]; [right|left; lia].
      split; [exact E|]. specialize (HCe E). lia.
    + intros Hm52 Hec. specialize (Hstrict Hm52 Hec).
      destruct (Z.eq_dec e1 ec) as [E|E]; [right|left; lia].
      split; [exact E|]. specialize (HCe E). lia.
Qed.

(** ** Powers of two, integers and [Math.floor] *)

Lemma binary_round_aux_exact (s : bool) (P E : Z) :
  2 ^ 52 <= P < 2 ^ 53 -> -1074 <= E ->
  binary_round_aux prec emax s P E loc_Exact = overflow_or s P E.
Proof.
  intros HP HE.
  assert (Hd : Zdigits2 P = 53) by (apply Zdigits2_unique; [exact HP | lia]).
  assert (He1 : fexp prec emax (Zdigits2 P + E) = E) by (rewrite Hd, fexp_eq; lia).
  destruct (binary_round_aux_spec s P E ltac:(lia) ltac:(lia)) as (R & _ & HR & _ & Hz).
  rewrite He1, Z.sub_diag in *. change (2 ^ 0) with 1 in HR.
  rewrite Z.mod_1_r, Z.div_1_r in HR. specialize (HR ltac:(lia)). subst R.
  rewrite Hz. unfold normalised.
  destruct (Z.eqb_spec P 0); [lia|].
  destruct (Z.eqb_spec P (2 ^ prec)) as [E53|E53]; [change (2 ^ prec) with (2 ^ 53) in E53; lia|].
  reflexivity.
Qed.

Lemma number_pow2_spec (a : Z) :
  1 <= a -> number_pow2 a = overflow_or false (2 ^ 52) (a - 52).
Proof.
  intros Ha. unfold number_pow2.
  change (SFone prec emax) with (S754_finite false (Z.to_pos (2 ^ 52)) (-52)).
  cbn [SFldexp]. unfold binary_round, shl_align.
  change (Z.pos (digits2_pos (Z.to_pos (2 ^ 52)))) with 53.
  rewrite fexp_eq.
  replace (Z.max (53 + (-52 + a) - 53) (-1074) - (-52 + a)) with 0 by lia.
  rewrite binary_round_aux_exact; [f_equal; lia | change (Z.pos (Z.to_pos (2 ^ 52))) with (2 ^ 52); lia | lia].
Qed.

Lemma scale_spec (a : Z) (sb : bool) (mb : positive) (eb : Z) :
  1 <= a <= 1023 -> bounded prec emax mb eb = true -> 2 ^ 52 <= Z.pos mb ->
  number_mul (S754_finite false (Z.to_pos (2 ^ 52)) (a - 52)) (S754_finite sb mb eb)
  = overflow_or sb (Z.pos mb) (a + eb).
Proof.
  intros Ha Hb Hn.
  assert (Hp : bounded prec emax (Z.to_pos (2 ^ 52)) (a - 52) = true).
  { apply bounded_iff. change (Z.pos (Z.to_pos (2 ^ 52))) with (2 ^ 52). lia. }
  destruct (SFmul_finite_spec false sb _ _ _ _ Hp Hb) as (R & _ & _ & _ & HR & _ & _ & Hz).
  cbn zeta in *. apply bounded_iff in Hb. destruct Hb as (Hb0 & Hb1 & Hb2 & _).
  change (Z.pos (Z.to_pos (2 ^ 52))) with (2 ^ 52) in *.
  assert (Hd : Zdigits2 (2 ^ 52 * Z.pos mb) = 105).
  { apply Zdigits2_unique; [|lia]. change (105 - 1) with (52 + 52). change 105 with (52 + 53).
    rewrite !pow2_split by lia. split.
    - apply Z.mul_le_mono_nonneg_l; lia.
    - apply Z.mul_lt_mono_pos_l; lia. }
  rewrite Hd, fexp_eq in *.
  replace (Z.max (105 + (a - 52 + eb) - 53) (-1074) - (a - 52 + eb)) with 52 in HR by lia.
  replace (Z.max (105 + (a - 52 + eb) - 53) (-1074)) with (a + eb) in Hz by lia.
  rewrite (Z.mul_comm (2 ^ 52)), Z.mod_mul, Z.div_mul in HR by lia.
  specialize (HR ltac:(lia)). subst R.
  unfold number_mul. rewrite Hz. unfold normalised.
  destruct (Z.eqb_spec (Z.pos mb) 0); [lia|].
  destruct (Z.eqb_spec (Z.pos mb) (2 ^ prec)) as [E53|E53]; [change (2 ^ prec) with (2 ^ 53) in E53; lia|].
  reflexivity.
Qed.

Lemma integer_normal (s : bool) (m : positive) (e : Z) :
  is_integer (S754_finite s m e) = true ->
  bounded prec emax m e = true /\ 2 ^ 52 <= Z.pos m /\ -52 <= e.
Proof.
  cbn [is_integer]. rewrite andb_true_iff, orb_true_iff, Z.leb_le, Z.eqb_eq.
  intros [Hb Hi]. split; [exact Hb|]. apply bounded_iff in Hb.
  destruct Hb as (_ & Hb1 & Hb2 & Hb3).
  assert (He : -52 <= e).
  { destruct Hi as [Hi|Hi]; [lia|].
    destruct (Z_le_gt_dec (-52) e) as [L|L]; [exact L|exfalso].
    assert (Hpos : 0 < 2 ^ (- e)) by (apply Z.pow_pos_nonneg; lia).
    apply Z.mod_divide in Hi; [|lia].
    apply Z.divide_pos_le in Hi; [|lia].
    assert (2 ^ 53 <= 2 ^ (- e)) by (apply Z.pow_le_mono_r; lia). lia. }
  split; [|exact He]. destruct Hb3; [lia | assumption].
Qed.

Lemma pos_iter_xO (m d : positive) : Z.pos (Pos.iter xO m d) = Z.pos m * 2 ^ Z.pos d.
Proof.
  induction d as [|d IH] using Pos.peano_ind.
  - cbn. lia.
  - rewrite Pos.iter_succ, Pos2Z.inj_xO, IH, Pos2Z.inj_succ, Z.pow_succ_r by lia. lia.
Qed.

Lemma number_of_pos (k : Z) (e : Z) :
  -52 <= e <= 0 -> 2 ^ (52 + e) <= k < 2 ^ (53 + e) ->
  binary_normalize prec emax k 0 false = S754_finite false (Z.to_pos (k * 2 ^ (- e))) e.
Proof.
  intros He Hk.
  assert (Hk0 : 0 < k) by (pose proof (Z.pow_pos_nonneg 2 (52 + e) ltac:(lia) ltac:(lia)); lia).
  destruct k as [|kp|kp]; try lia. cbn [binary_normalize].
  assert (Hd : Zdigits2 (Z.pos kp) = 53 + e).
  { apply Zdigits2_unique; [|lia]. replace (53 + e - 1) with (52 + e) by lia. exact Hk. }
  unfold binary_round, shl_align.
  change (Z.pos (digits2_pos kp)) with (Zdigits2 (Z.pos kp)). rewrite Hd, fexp_eq.
  replace (Z.max (53 + e + 0 - 53) (-1074) - 0) with e by lia.
  assert (Hs : Z.pos kp * 2 ^ (- e) < 2 ^ 53 /\ 2 ^ 52 <= Z.pos kp * 2 ^ (- e)).
  { assert (E53 : 2 ^ 53 = 2 ^ (53 + e) * 2 ^ (- e))
      by (rewrite <- pow2_split by lia; f_equal; lia).
    assert (E52 : 2 ^ 52 = 2 ^ (52 + e) * 2 ^ (- e))
      by (rewrite <- pow2_split by lia; f_equal; lia).
    assert (0 < 2 ^ (- e)) by (apply Z.pow_pos_nonneg; lia).
    rewrite E53, E52. split.
    - apply Z.mul_lt_mono_pos_r; lia.
    - apply Z.mul_le_mono_nonneg_r; lia. }
  destruct e as [|p|p]; try lia.
  - rewrite binary_round_aux_exact by (cbn in Hs; lia).
    rewrite overflow_or_finite by lia. f_equal. cbn. lia.
  - replace (Z.max (53 + Z.neg p + 0 - 53) (-1074)) with (Z.neg p) by lia.
    rewrite pos_iter_xO. change (- Z.neg p) with (Z.pos p) in *.
    rewrite binary_round_aux_exact by lia.
    rewrite overflow_or_finite by lia. reflexivity.
Qed.

Lemma Math_floor_spec (m : positive) (e : Z) :
  bounded prec emax m e = true ->
  let d := Math_floor (S754_finite false m e) in
  d = S754_zero false \/
  exists m', d = S754_finite false m' e /\ Z.pos m' <= Z.pos m /\ is_integer d = true.
Proof.
  intros Hb d. unfold d. cbn [Math_floor].
  destruct (Z.leb_spec 0 e) as [L|L].
  - right. exists m. split; [reflexivity|]. split; [lia|].
    cbn [is_integer]. rewrite Hb. apply Z.leb_le in L. rewrite L. reflexivity.
  - cbn [cond_Zopp].
    assert (Hpos : 0 < 2 ^ (- e)) by (apply Z.pow_pos_nonneg; lia).
    assert (Hk0 : 0 <= Z.pos m / 2 ^ (- e)) by (apply Z.div_pos; lia).
    destruct (Z.eq_dec (Z.pos m / 2 ^ (- e)) 0) as [K|K].
    + left. rewrite K. reflexivity.
    + right. pose proof Hb as Hb'. apply bounded_iff in Hb'.
      destruct Hb' as (Hb0 & Hb1 & Hb2 & Hb3).
      pose proof (Z.mul_div_le (Z.pos m) (2 ^ (- e)) Hpos) as Hle.
      assert (Hge : 2 ^ (- e) <= Z.pos m).
      { assert (1 <= Z.pos m / 2 ^ (- e)) by lia.
        assert (2 ^ (- e) * 1 <= 2 ^ (- e) * (Z.pos m / 2 ^ (- e))) by (apply Z.mul_le_mono_nonneg_l; lia).
        lia. }
      assert (He : -52 <= e).
      { destruct (Z_le_gt_dec (-52) e) as [L'|L']; [exact L'|exfalso].
        assert (2 ^ 53 <= 2 ^ (- e)) by (apply Z.pow_le_mono_r; lia). lia. }
      assert (Hn : 2 ^ 52 <= Z.pos m) by (destruct Hb3; [lia | assumption]).
      assert (Hk : 2 ^ (52 + e) <= Z.pos m / 2 ^ (- e) < 2 ^ (53 + e)).
      { split.
        - apply Z.div_le_lower_bound; [lia|]. rewrite <- pow2_split by lia.
          replace (- e + (52 + e)) with 52 by lia. exact Hn.
        - apply Z.div_lt_upper_bound; [lia|]. rewrite <- pow2_split by lia.
          replace (- e + (53 + e)) with 53 by lia. exact Hb2. }
      rewrite (number_of_pos _ e) by (try exact Hk; lia).
      set (m' := Z.pos m / 2 ^ (- e) * 2 ^ (- e)).
      assert (Hm'lo : 2 ^ 52 <= m').
      { assert (E52 : 2 ^ 52 = 2 ^ (52 + e) * 2 ^ (- e))
          by (rewrite <- pow2_split by lia; f_equal; lia).
        unfold m'. rewrite E52. apply Z.mul_le_mono_nonneg_r; lia. }
      assert (Hm' : Z.pos (Z.to_pos m') = m') by (apply Z2Pos.id; lia).
      exists (Z.to_pos m'). split; [reflexivity|]. rewrite Hm'.
      split; [unfold m'; lia|].
      cbn [is_integer]. rewrite Hm'. apply andb_true_iff. split.
      * apply bounded_iff. rewrite Hm'. unfold m' in *. lia.
      * apply orb_true_iff. right. apply Z.eqb_eq. unfold m'. apply Z.mod_mul. lia.
Qed.

(** ** Comparisons and the shape of the delay *)

Lemma SFleb_finite (m1 m2 : positive) (e1 e2 : Z) :
  e1 < e2 \/ (e1 = e2 /\ Z.pos m1 <= Z.pos m2) ->
  SFleb (S754_finite false m1 e1) (S754_finite false m2 e2) = true.
Proof.
  intros H. unfold SFleb. cbn [SFcompare].
  destruct (Z.compare_spec e1 e2) as [E|L|G]; [|reflexivity|lia].
  change (Pos.compare_cont Eq m1 m2) with (Pos.compare m1 m2).
  destruct (Pos.compare_spec m1 m2); [reflexivity|reflexivity|lia].
Qed.

Lemma SFltb_finite (m1 m2 : positive) (e1 e2 : Z) :
  e1 < e2 \/ (e1 = e2 /\ Z.pos m1 < Z.pos m2) ->
  SFltb (S754_finite false m1 e1) (S754_finite false m2 e2) = true.
Proof.
  intros H. unfold SFltb. cbn [SFcompare].
  destruct (Z.compare_spec e1 e2) as [E|L|G]; [|reflexivity|lia].
  change (Pos.compare_cont Eq m1 m2) with (Pos.compare m1 m2).
  destruct (Pos.compare_spec m1 m2); [subst; lia|reflexivity|lia].
Qed.

Lemma unit_interval_cases (r : Number) :
  unit_interval r ->
  (exists s, r = S754_zero s) \/
  (exists m e, r = S754_finite false m e /\ bounded prec emax m e = true /\ e <= -53).
Proof.
  intros (Hv & H0 & H1). unfold number_le, number_lt in *.
  destruct r as [s|s| |s m e]; [left; exists s; reflexivity|destruct s; discriminate|discriminate|right].
  destruct s; [discriminate|]. exists m, e. split; [reflexivity|].
  cbn [valid_binary] in Hv. split; [exact Hv|].
  apply bounded_iff in Hv. destruct Hv as (_ & Hv1 & Hv2 & Hv3).
  revert H1. unfold SFltb. change (number_of_Z 1) with (S754_finite false (Z.to_pos (2 ^ 52)) (-52)).
  cbn [SFcompare].
  destruct (Z.compare_spec e (-52)) as [E|L|G]; [|lia|discriminate].
  change (Pos.compare_cont Eq m (Z.to_pos (2 ^ 52))) with (Pos.compare m (Z.to_pos (2 ^ 52))).
  destruct (Pos.compare_spec m (Z.to_pos (2 ^ 52))) as [E'|L'|G']; try discriminate.
  intros _. exfalso. change (Z.pos (Z.to_pos (2 ^ 52))) with (2 ^ 52) in *.
  assert (Z.pos m < 2 ^ 52) by (change (2 ^ 52) with (Z.pos (Z.to_pos (2 ^ 52))); lia).
  lia.
Qed.

Lemma backoff_of_zero (r : Number) (s : bool) :
  unit_interval r -> exists s', Math_floor (number_mul r (S754_zero s)) = S754_zero s'.
Proof.
  intros Hr. destruct (unit_interval_cases r Hr) as [[s0 ->]|(m & e & -> & _)];
    eexists; reflexivity.
Qed.

Lemma backoff_below (r : Number) (mc : positive) (ec : Z) :
  unit_interval r -> bounded prec emax mc ec = true ->
  let d := Math_floor (number_mul r (S754_finite false mc ec)) in
  is_integer d = true /\ number_le (number_of_Z 0) d /\
  number_le d (S754_finite false mc ec) /\
  (2 ^ 52 <= Z.pos mc -> -52 <= ec -> number_lt d (S754_finite false mc ec)).
Proof.
  intros Hr Hc d.
  destruct (unit_interval_cases r Hr) as [[s0 E]|(mr & er & E & Hb & Her)]; subst r.
  - subst d. cbn. destruct s0; repeat split; reflexivity.
  - pose proof (mul_unit_bound mr mc er ec Hb Her Hc) as Hz. cbn zeta in Hz.
    unfold d, number_mul.
    destruct Hz as [Hz|(mz & ez & Hz & Hbz & Hle & Hlt)]; rewrite Hz.
    + cbn. repeat split; reflexivity.
    + pose proof (Math_floor_spec mz ez Hbz) as Hf. cbn zeta in Hf.
      destruct Hf as [Hf|(m' & Hf & Hm' & Hint)]; rewrite Hf in *.
      * cbn. repeat split; reflexivity.
      * split; [exact Hint|]. split; [reflexivity|]. split.
        -- apply SFleb_finite. lia.
        -- intros H1 H2. specialize (Hlt H1 H2). apply SFltb_finite. lia.
Qed.

Lemma product_shape (a : Z) (base : Number) :
  1 <= a -> is_integer base = true ->
  match base with
  | S754_zero s =>
      number_mul (number_pow2 a) base = (if a <=? 1023 then S754_zero s else S754_nan)
  | S754_finite s m e =>
      number_mul (number_pow2 a) base =
      (if a + e <=? 971 then S754_finite s m (a + e) else S754_infinity s)
  | _ => True
  end.
Proof.
  intros Ha Hi. rewrite number_pow2_spec by exact Ha.
  destruct base as [s|s| |s m e]; try exact I.
  - destruct (Z.leb_spec a 1023) as [L|L].
    + rewrite overflow_or_finite by lia. reflexivity.
    + unfold overflow_or. change (emax - prec) with 971.
      destruct (Z.leb_spec (a - 52) 971); [lia|]. reflexivity.
  - destruct (integer_normal s m e Hi) as (Hb & Hn & He).
    destruct (Z_le_gt_dec a 1023) as [L|L].
    + rewrite overflow_or_finite by lia.
      rewrite scale_spec by (try assumption; lia). reflexivity.
    + unfold overflow_or. change (emax - prec) with 971.
      destruct (Z.leb_spec (a - 52) 971); [lia|].
      destruct (Z.leb_spec (a + e) 971); [lia|]. reflexivity.
Qed.

(* ===================================================================== *)
(** * The backoff calculator *)
(* ===================================================================== *)

Lemma cap_of_nonneg (a : Z) (base max : Number) :
  1 <= a ->
  is_integer base = true -> number_le (number_of_Z 0) base ->
  is_integer max = true -> number_le (number_of_Z 0) max ->
  a <= 1023 \/ number_lt (number_of_Z 0) base ->
  (exists s, attemptUpperBoundMs a base max = S754_zero s) \/
  (exists mc ec, attemptUpperBoundMs a base max = S754_finite false mc ec /\
                 bounded prec emax mc ec = true).
Proof.
  intros Ha Hib Hb Him Hm Hov. unfold attemptUpperBoundMs.
  pose proof (product_shape a base Ha Hib) as Hp.
  unfold number_le, number_lt in *.
  destruct base as [sb|sb| |sb mb eb]; try discriminate.
  - assert (L : a <= 1023) by (destruct Hov as [L|L]; [exact L | discriminate]).
    apply Z.leb_le in L. rewrite L in Hp. rewrite Hp. left.
    destruct max as [sm|sm| |sm mm em]; try discriminate.
    + eexists. reflexivity.
    + destruct sm; [discriminate|]. exists sb. reflexivity.
  - destruct sb; [discriminate|]. rewrite Hp.
    destruct (integer_normal _ _ _ Hib) as (Hbb & Hnb & Heb). apply bounded_iff in Hbb.
    destruct max as [sm|sm| |sm mm em]; try discriminate.
    + left. exists sm. destruct (a + eb <=? 971); reflexivity.
    + destruct sm; [discriminate|]. right.
      destruct (integer_normal _ _ _ Him) as (Hbm & _ & _).
      destruct (Z.leb_spec (a + eb) 971) as [L|L].
      * unfold Math_min. cbn [SFcompare].
        destruct (a + eb ?= em); [destruct (Pos.compare_cont Eq mb mm)| |];
          (eexists; eexists; split; [reflexivity|]); try exact Hbm;
          apply bounded_iff; lia.
      * exists mm, em. split; [reflexivity | exact Hbm].
Qed.



Lemma delay_within_cap (r : Number) (a : Z) (baseDelayMs maxDelayMs : Number) :
  unit_interval r -> 1 <= a ->
  is_integer baseDelayMs = true -> number_le (number_of_Z 0) baseDelayMs ->
  is_integer maxDelayMs = true -> number_le (number_of_Z 0) maxDelayMs ->
  a <= 1023 \/ number_lt (number_of_Z 0) baseDelayMs ->
  number_le (number_of_Z 0) (jitterBackoff r a baseDelayMs maxDelayMs)
  /\ number_le (jitterBackoff r a baseDelayMs maxDelayMs)
       (attemptUpperBoundMs a baseDelayMs maxDelayMs).
Proof.
  intros Hr Ha Hib Hb Him Hm Hov. unfold jitterBackoff.
  destruct (cap_of_nonneg a baseDelayMs maxDelayMs Ha Hib Hb Him Hm Hov)
    as [[s Hc]|(mc & ec & Hc & Hbc)]; rewrite Hc.
  - destruct (backoff_of_zero r s Hr) as [s' Hd]. rewrite Hd. split; reflexivity.
  - destruct (backoff_below r mc ec Hr Hbc) as (_ & H0 & Hle & _).
    split; assumption.
Qed.







(** What the backoff computes on the defaults and on the test
    configuration: [floor(0.5 * min(2 * 100, 3000)) = 100],
    [floor(0.5 * min(2^5 * 100, 3000)) = 1500], and with a draw of
    [0.7] the product [0.7 * 10] rounds to [7]. *)
Example jitterBackoff_computed :
  jitterBackoff Mock.draw 1 (number_of_Z 100) (number_of_Z 3000)
  = number_of_Z 100
  /\ jitterBackoff Mock.draw 5 (number_of_Z 100) (number_of_Z 3000)
     = number_of_Z 1500
  /\ jitterBackoff (S754_finite false 6305039478318694 (-53)) 4
       (number_of_Z 1) (number_of_Z 10)
     = number_of_Z 7.
Proof. repeat split. Qed.

(** Products round to the nearest double: [0.1 * 3] is
    [0.30000000000000004], and [Math.floor] of a negative fraction goes
    down, [Math.floor(-0.5) = -1]. *)
Example number_mul_rounds :
  number_mul (S754_finite false 7205759403792794 (-56)) (number_of_Z 3)
  = S754_finite false 5404319552844596 (-54)
  /\ Math_floor (S754_finite true 4503599627370496 (-53)) = number_of_Z (-1).
Proof. split; reflexivity. Qed.

(* ===================================================================== *)
(** * Traces *)
(* ===================================================================== *)

Lemma count_calls_app (a b : Trace) :
  count_calls (a ++ b) = (count_calls a + count_calls b)%nat.
Proof.
  induction a as [|ev a IH]; simpl; [reflexivity|].
  destruct ev; simpl; rewrite IH; reflexivity.
Qed.

Lemma count_getStub_app (a b : Trace) :
  count_getStub (a ++ b) = (count_getStub a + count_getStub b)%nat.
Proof.
  induction a as [|ev a IH]; simpl; [reflexivity|].
  destruct ev; simpl; rewrite IH; reflexivity.
Qed.

Lemma called_handles_app (a b : Trace) :
  called_handles (a ++ b) = called_handles a ++ called_handles b.
Proof.
  induction a as [|ev a IH]; simpl; [reflexivity|].
  destruct ev; simpl; rewrite IH; reflexivity.
Qed.

Lemma handles_of_app (a b : Trace) :
  handles_of (a ++ b) = handles_of a ++ handles_of b.
Proof.
  induction a as [|ev a IH]; simpl; [reflexivity|].
  destruct ev; simpl; rewrite IH; reflexivity.
Qed.

(* ===================================================================== *)
(** * The attempt loops, one iteration at a time *)
(* ===================================================================== *)

Section Loops.
Variable rt : Runtime.
Variable getStub : StubGetter.
Variable prop : string.
Variable args : list JsValue.

Lemma RevA_retry_loop_unfold (options : RevA.Options) attempt lastError
    currentStub tr :
  RevA.retry_loop rt getStub options prop args attempt lastError currentStub tr =
  if attempt <=? RevA.maxAttempts options then
    let tr1 := tr ++ [ECall currentStub prop args] in
    match rpc rt tr currentStub prop args with
    | Resolved v => (Resolved v, tr1)
    | Rejected err =>
        if RevA.reaches_retry_logic options err then
          if attempt >=? RevA.maxAttempts options then (Rejected err, tr1)
          else
            let fresh := getStub tr1 in
            let tr2 := tr1 ++ [EGetStub fresh] in
            let r := math_random rt tr2 in
            let delay :=
              jitterBackoff r attempt (RevA.baseDelayMs options)
                (RevA.maxDelayMs options) in
            RevA.retry_loop rt getStub options prop args (attempt + 1) err
              fresh (tr2 ++ [ERandom r; EWait delay])
        else (Rejected err, tr1)
    end
  else (Rejected lastError, tr).
Proof.
  simp retry_loop.
  destruct (Z_le_gt_dec attempt (RevA.maxAttempts options)) as [Hle|Hgt]; simpl.
  - destruct (Z.leb_spec attempt (RevA.maxAttempts options)); [|lia].
    destruct (rpc rt tr currentStub prop args) as [v|err]; simpl; [reflexivity|].
    destruct (RevA.reaches_retry_logic options err); simpl; [|reflexivity].
    destruct (Z_ge_lt_dec attempt (RevA.maxAttempts options)); simpl;
      destruct (Z.geb_spec attempt (RevA.maxAttempts options));
      try lia; reflexivity.
  - destruct (Z.leb_spec attempt (RevA.maxAttempts options));
      [lia|reflexivity].
Qed.

Lemma RevB_retry_loop_unfold (options : RevB.Options) target attempt
    lastError tr :
  RevB.retry_loop rt getStub options prop args target attempt lastError tr =
  if attempt <=? RevB.maxAttempts options then
    let (currentStub, tr0) := RevB.current_stub getStub target attempt tr in
    let tr1 := tr0 ++ [ECall currentStub prop args] in
    match rpc rt tr0 currentStub prop args with
    | Resolved v => (Resolved v, tr1)
    | Rejected err =>
        if RevB.isRetryable options err then
          if attempt >=? RevB.maxAttempts options then (Rejected err, tr1)
          else
            let r := math_random rt tr1 in
            let delay :=
              jitterBackoff r attempt (RevB.baseDelayMs options)
                (RevB.maxDelayMs options) in
            RevB.retry_loop rt getStub options prop args target (attempt + 1)
              err (tr1 ++ [ERandom r; EWait delay])
        else (Rejected err, tr1)
    end
  else (Rejected lastError, tr).
Proof.
  simp retry_loop.
  destruct (Z_le_gt_dec attempt (RevB.maxAttempts options)) as [Hle|Hgt]; simpl.
  - destruct (Z.leb_spec attempt (RevB.maxAttempts options)); [|lia].
    destruct (RevB.current_stub getStub target attempt tr)
      as [currentStub tr0]; simpl.
    destruct (rpc rt tr0 currentStub prop args) as [v|err]; simpl;
      [reflexivity|].
    destruct (RevB.isRetryable options err); simpl; [|reflexivity].
    destruct (Z_ge_lt_dec attempt (RevB.maxAttempts options)); simpl;
      destruct (Z.geb_spec attempt (RevB.maxAttempts options));
      try lia; reflexivity.
  - destruct (Z.leb_spec attempt (RevB.maxAttempts options));
      [lia|reflexivity].
Qed.

(** ** A method that always fails with a retried error *)

Lemma RevA_always_failing (options : RevA.Options) :
  (forall tr' s, exists e,
      rpc rt tr' s prop args = Rejected e
      /\ RevA.reaches_retry_logic options e = true) ->
  forall (n : nat) attempt lastError stub tr,
    attempt <= RevA.maxAttempts options ->
    Z.to_nat (RevA.maxAttempts options - attempt) = n ->
    exists e pre s,
      RevA.retry_loop rt getStub options prop args attempt lastError stub tr
      = (Rejected e, pre ++ [ECall s prop args])
      /\ rpc rt pre s prop args = Rejected e
      /\ count_calls (pre ++ [ECall s prop args])
         = (count_calls tr + S n)%nat.
Proof.
  intros Hfail n. induction n as [|n IH]; intros attempt lastError stub tr Hle Hn;
    rewrite RevA_retry_loop_unfold;
    destruct (Z.leb_spec attempt (RevA.maxAttempts options)); try lia;
    destruct (Hfail tr stub) as [e [He Hc]]; rewrite He, Hc; cbv zeta.
  - destruct (Z.geb_spec attempt (RevA.maxAttempts options)); [|lia].
    exists e, tr, stub. repeat split; trivial.
    rewrite count_calls_app. simpl. lia.
  - destruct (Z.geb_spec attempt (RevA.maxAttempts options)); [lia|].
    edestruct IH as [e' [pre [s [Hrun [Hlast Hcount]]]]];
      [| | rewrite Hrun; exists e', pre, s; repeat split; trivial].
    + lia.
    + lia.
    + rewrite Hcount, !count_calls_app. simpl. lia.
Qed.

Lemma RevB_always_failing (options : RevB.Options) target :
  (forall tr' s, exists e,
      rpc rt tr' s prop args = Rejected e
      /\ RevB.isRetryable options e = true) ->
  forall (n : nat) attempt lastError tr,
    attempt <= RevB.maxAttempts options ->
    Z.to_nat (RevB.maxAttempts options - attempt) = n ->
    exists e pre s,
      RevB.retry_loop rt getStub options prop args target attempt lastError tr
      = (Rejected e, pre ++ [ECall s prop args])
      /\ rpc rt pre s prop args = Rejected e
      /\ count_calls (pre ++ [ECall s prop args])
         = (count_calls tr + S n)%nat.
Proof.
  intros Hfail n. induction n as [|n IH]; intros attempt lastError tr Hle Hn;
    rewrite RevB_retry_loop_unfold;
    destruct (Z.leb_spec attempt (RevB.maxAttempts options)); try lia;
    destruct (RevB.current_stub getStub target attempt tr)
      as [stub tr0] eqn:Hcur;
    assert (Hc0 : count_calls tr0 = count_calls tr)
      by (unfold RevB.current_stub in Hcur;
          destruct (attempt =? 1); injection Hcur as <- <-;
          [reflexivity | rewrite count_calls_app; simpl; lia]);
    destruct (Hfail tr0 stub) as [e [He Hc]]; rewrite He, Hc; cbv zeta.
  - destruct (Z.geb_spec attempt (RevB.maxAttempts options)); [|lia].
    exists e, tr0, stub. repeat split; trivial.
    rewrite count_calls_app. simpl. lia.
  - destruct (Z.geb_spec attempt (RevB.maxAttempts options)); [lia|].
    edestruct IH as [e' [pre [s [Hrun [Hlast Hcount]]]]];
      [| | rewrite Hrun; exists e', pre, s; repeat split; trivial].
    + lia.
    + lia.
    + rewrite Hcount, !count_calls_app. simpl. lia.
Qed.

End Loops.

Lemma maxAttempts_merged (options : option RetryOptions) :
  RevA.maxAttempts (RevA.merge_options options) = maxAttempts_of options
  /\ RevB.maxAttempts (RevB.merge_options options) = maxAttempts_of options.
Proof. split; reflexivity. Qed.

(* ===================================================================== *)
(** * The attempt budget *)
(* ===================================================================== *)

(** C9.  Under a configuration whose [maxAttempts] is [0] or negative,
    a wrapped method call makes no call at all on the underlying stub (the
    trace is left as it was) and rejects with [undefined], the initial
    value of [lastError]; in both revisions. *)
Theorem nonpositive_maxAttempts_rejects_undefined (rev : Revision)
    (rt : Runtime) (getStub : StubGetter) (o : RetryOptions) (n : Z)
    (prop : string) (args : list JsValue) (target : Stub) (tr : Trace) :
  ro_maxAttempts o = Some n -> n <= 0 ->
  wrapped_call rev rt getStub (Some o) prop args target tr
  = (Rejected JUndefined, tr).
Proof.
  intros Hn Hle.
  destruct rev; unfold wrapped_call, RevA.retrying_call, RevB.retrying_call;
    cbv zeta.
  - rewrite RevA_retry_loop_unfold.
    replace (RevA.maxAttempts (RevA.merge_options (Some o))) with n
      by (simpl; now rewrite Hn).
    destruct (Z.leb_spec 1 n); [lia|reflexivity].
  - rewrite RevB_retry_loop_unfold.
    replace (RevB.maxAttempts (RevB.merge_options (Some o))) with n
      by (simpl; now rewrite Hn).
    destruct (Z.leb_spec 1 n); [lia|reflexivity].
Qed.

Lemma nonpositive_maxAttempts_witness :
  wrapped_call RevisionA (Mock.runtime [] (Resolved (JStr "success")))
    Mock.createStub (Some (Mock.with_maxAttempts 0 Mock.FAST_RETRY))
    "testMethod" [] 1%nat [EGetStub 1%nat]
  = (Rejected JUndefined, [EGetStub 1%nat]).
Proof.
  apply (nonpositive_maxAttempts_rejects_undefined RevisionA _ _ _ 0);
    [reflexivity | lia].
Defined.

(** C2.  With [maxAttempts = N >= 1] and a method every invocation of
    which rejects with an error the revision's classifier accepts, the
    wrapped call makes exactly [N] method calls and then rejects with the
    very value the last of them, the [N]-th, rejected with; in both
    revisions. *)
Theorem exhaustion_rethrows_last_error (rev : Revision) (rt : Runtime)
    (getStub : StubGetter) (options : option RetryOptions) (prop : string)
    (args : list JsValue) (target : Stub) (tr : Trace) (N : Z) :
  maxAttempts_of options = N -> 1 <= N ->
  (forall tr' s, exists e,
      rpc rt tr' s prop args = Rejected e
      /\ classifier rev options e = true) ->
  exists e pre s,
    wrapped_call rev rt getStub options prop args target tr
    = (Rejected e, pre ++ [ECall s prop args])
    /\ rpc rt pre s prop args = Rejected e
    /\ count_calls (pre ++ [ECall s prop args])
       = (count_calls tr + Z.to_nat N)%nat.
Proof.
  intros HN Hpos Hfail.
  destruct (maxAttempts_merged options) as [HA HB].
  destruct rev; unfold wrapped_call, RevA.retrying_call, RevB.retrying_call;
    cbv zeta.
  - destruct (RevA_always_failing rt getStub prop args
                (RevA.merge_options options) Hfail
                (Z.to_nat (N - 1)) 1 JUndefined target tr)
      as [e [pre [s [Hrun [Hlast Hcount]]]]]; try (rewrite HA; lia).
    exists e, pre, s. repeat split; trivial. rewrite Hcount. lia.
  - destruct (RevB_always_failing rt getStub prop args
                (RevB.merge_options options) target Hfail
                (Z.to_nat (N - 1)) 1 JUndefined tr)
      as [e [pre [s [Hrun [Hlast Hcount]]]]]; try (rewrite HB; lia).
    exists e, pre, s. repeat split; trivial. rewrite Hcount. lia.
Qed.

Lemma exhaustion_rethrows_last_error_witness :
  exists e pre s,
    wrapped_call RevisionA
      (Mock.runtime [] (Rejected (Mock.createRetryableError "always-fails")))
      Mock.createStub (Some (Mock.with_maxAttempts 2 Mock.FAST_RETRY))
      "testMethod" [] 1%nat [EGetStub 1%nat]
    = (Rejected e, pre ++ [ECall s "testMethod" []])
    /\ rpc (Mock.runtime [] (Rejected (Mock.createRetryableError "always-fails")))
         pre s "testMethod" [] = Rejected e
    /\ count_calls (pre ++ [ECall s "testMethod" []])
       = (count_calls [EGetStub 1%nat] + Z.to_nat 2)%nat.
Proof.
  apply (exhaustion_rethrows_last_error RevisionA).
  - reflexivity.
  - lia.
  - intros tr' s. exists (Mock.createRetryableError "always-fails").
    simpl. unfold Mock.mockMethod. destruct (count_calls tr'); split; reflexivity.
Defined.

(* ===================================================================== *)
(** * Success after failures *)
(* ===================================================================== *)

Section Success.
Variable rt : Runtime.
Variable getStub : StubGetter.
Variable prop : string.
Variable args : list JsValue.
Variable v : JsValue.

Lemma fails_then_resolves_next accepts tr tr' j :
  count_calls tr' = S (count_calls tr) ->
  fails_then_resolves rt prop args v accepts tr (S j) ->
  fails_then_resolves rt prop args v accepts tr' j.
Proof.
  intros Hc [Hfail Hok]. split.
  - intros t s Ht. apply Hfail. lia.
  - intros t s Ht. apply Hok. lia.
Qed.

Lemma calls_are_cons_call s ext :
  calls_are prop args ext -> calls_are prop args (ECall s prop args :: ext).
Proof.
  intros H s' p a [Heq|Hin]; [injection Heq; auto | eauto].
Qed.

Lemma calls_are_cons_other ev ext :
  (forall s p a, ev <> ECall s p a) ->
  calls_are prop args ext -> calls_are prop args (ev :: ext).
Proof.
  intros Hev H s' p a [Heq|Hin]; [exfalso; eapply Hev; eauto | eauto].
Qed.

Lemma calls_are_nil : calls_are prop args [].
Proof. intros s p a []. Qed.

Create HintDb calls.
Hint Resolve calls_are_cons_call calls_are_cons_other calls_are_nil : calls.

Lemma RevA_succeeds_after (options : RevA.Options) :
  forall (j : nat) attempt lastError stub tr,
    attempt + Z.of_nat j <= RevA.maxAttempts options ->
    fails_then_resolves rt prop args v (RevA.reaches_retry_logic options) tr j ->
    exists ext,
      RevA.retry_loop rt getStub options prop args attempt lastError stub tr
      = (Resolved v, tr ++ ext)
      /\ count_calls ext = S j
      /\ count_getStub ext = j
      /\ calls_are prop args ext
      /\ hd_error ext = Some (ECall stub prop args).
Proof.
  induction j as [|j IH]; intros attempt lastError stub tr Hle Hscript;
    rewrite RevA_retry_loop_unfold;
    destruct (Z.leb_spec attempt (RevA.maxAttempts options)); try lia;
    cbv zeta.
  - destruct Hscript as [_ Hok]. rewrite (Hok tr stub) by lia.
    exists [ECall stub prop args]. conjs; auto with calls.
  - destruct (proj1 Hscript tr stub) as [e [He Hacc]]; [lia|].
    rewrite He, Hacc.
    destruct (Z.geb_spec attempt (RevA.maxAttempts options)); [lia|].
    set (tr1 := tr ++ [ECall stub prop args]).
    set (fresh := getStub tr1).
    set (r := math_random rt (tr1 ++ [EGetStub fresh])).
    set (delay := jitterBackoff r attempt _ _).
    set (tr3 := (tr1 ++ [EGetStub fresh]) ++ [ERandom r; EWait delay]).
    destruct (IH (attempt + 1) e fresh tr3) as [ext [Hrun [Hc [Hg [Hcalls _]]]]].
    + lia.
    + apply (fails_then_resolves_next _ tr); [|exact Hscript].
      unfold tr3, tr1. rewrite !count_calls_app. simpl. lia.
    + exists (ECall stub prop args :: EGetStub fresh :: ERandom r
                :: EWait delay :: ext).
      rewrite Hrun. conjs.
      * unfold tr3, tr1. now rewrite <- !app_assoc.
      * simpl. now rewrite Hc.
      * simpl. now rewrite Hg.
      * repeat (first [apply calls_are_cons_call
                      | apply calls_are_cons_other; [discriminate|]]).
        exact Hcalls.
      * reflexivity.
Qed.

Lemma RevB_succeeds_after (options : RevB.Options) (target : Stub) :
  forall (j : nat) attempt lastError tr,
    1 <= attempt ->
    attempt + Z.of_nat j <= RevB.maxAttempts options ->
    fails_then_resolves rt prop args v (RevB.isRetryable options) tr j ->
    exists ext,
      RevB.retry_loop rt getStub options prop args target attempt lastError tr
      = (Resolved v, tr ++ ext)
      /\ count_calls ext = S j
      /\ count_getStub ext = (j + if (attempt =? 1)%Z then 0 else 1)%nat
      /\ calls_are prop args ext
      /\ (attempt = 1 -> hd_error ext = Some (ECall target prop args)).
Proof.
  induction j as [|j IH]; intros attempt lastError tr H1 Hle Hscript;
    rewrite RevB_retry_loop_unfold;
    destruct (Z.leb_spec attempt (RevB.maxAttempts options)); try lia;
    unfold RevB.current_stub; cbv zeta.
  - destruct Hscript as [_ Hok].
    destruct (Z.eqb_spec attempt 1) as [->|Hne].
    + rewrite (Hok tr target) by lia.
      exists [ECall target prop args]. conjs; auto with calls.
    + rewrite (Hok (tr ++ [EGetStub (getStub tr)]) (getStub tr))
        by (rewrite count_calls_app; simpl; lia).
      exists [EGetStub (getStub tr); ECall (getStub tr) prop args].
      rewrite <- app_assoc. conjs; auto with calls.
      * apply calls_are_cons_other; [discriminate|]. auto with calls.
      * intros; contradiction.
  - set (cur := if attempt =? 1 then (target, tr)
                else (getStub tr, tr ++ [EGetStub (getStub tr)])).
    assert (Hcur : exists pre, snd cur = tr ++ pre
              /\ count_calls pre = 0%nat
              /\ count_getStub pre = (if (attempt =? 1)%Z then 0 else 1)%nat
              /\ calls_are prop args pre
              /\ (attempt = 1 -> pre = [] /\ fst cur = target)).
    { unfold cur. destruct (Z.eqb_spec attempt 1) as [->|Hne].
      - exists []. simpl. rewrite app_nil_r. conjs; auto with calls.
      - exists [EGetStub (getStub tr)]. simpl. conjs; try reflexivity.
        + apply calls_are_cons_other; [discriminate|]. auto with calls.
        + contradiction. }
    destruct cur as [stub tr0]. simpl in Hcur.
    destruct Hcur as [pre [-> [Hpc [Hpg [Hpcalls Hfirst]]]]].
    destruct (proj1 Hscript (tr ++ pre) stub) as [e [He Hacc]];
      [rewrite count_calls_app; lia|].
    rewrite He, Hacc.
    destruct (Z.geb_spec attempt (RevB.maxAttempts options)); [lia|].
    set (tr1 := (tr ++ pre) ++ [ECall stub prop args]).
    set (r := math_random rt tr1).
    set (delay := jitterBackoff r attempt _ _).
    set (tr2 := tr1 ++ [ERandom r; EWait delay]).
    destruct (IH (attempt + 1) e tr2) as [ext [Hrun [Hc [Hg [Hcalls _]]]]].
    + lia.
    + lia.
    + apply (fails_then_resolves_next _ tr); [|exact Hscript].
      unfold tr2, tr1. rewrite !count_calls_app. simpl. lia.
    + exists (pre ++ ECall stub prop args :: ERandom r :: EWait delay :: ext).
      rewrite Hrun. conjs.
      * unfold tr2, tr1. rewrite <- !app_assoc. reflexivity.
      * rewrite count_calls_app. simpl. lia.
      * rewrite count_getStub_app. simpl. rewrite Hg.
        destruct (Z.eqb_spec (attempt + 1) 1); [lia|]. lia.
      * intros s p a Hin. apply in_app_or in Hin. destruct Hin as [Hin|Hin].
        -- eapply Hpcalls; eauto.
        -- revert s p a Hin.
           repeat (first [apply calls_are_cons_call
                         | apply calls_are_cons_other; [discriminate|]]).
           exact Hcalls.
      * intros Hone. destruct (Hfirst Hone) as [-> ->]. reflexivity.
Qed.

End Success.

(** C4.  With [maxAttempts = N >= 1], when the method rejects with an
    error the revision's classifier accepts on attempts [1 .. k-1] and
    resolves with [v] on attempt [k <= N], the wrapped call resolves with
    [v]; it makes exactly [k] method calls, each of them the same method
    on the original arguments and the first of them on the handle the
    proxy already holds; and it acquires exactly [k-1] further handles
    from the getter; in both revisions. *)
Theorem success_on_attempt_k (rev : Revision) (rt : Runtime)
    (getStub : StubGetter) (options : option RetryOptions) (prop : string)
    (args : list JsValue) (target : Stub) (tr : Trace) (k : nat)
    (v : JsValue) :
  (1 <= k)%nat -> Z.of_nat k <= maxAttempts_of options ->
  (forall tr' s,
      (count_calls tr <= count_calls tr' < count_calls tr + (k - 1))%nat ->
      exists e, rpc rt tr' s prop args = Rejected e
                /\ classifier rev options e = true) ->
  (forall tr' s,
      count_calls tr' = (count_calls tr + (k - 1))%nat ->
      rpc rt tr' s prop args = Resolved v) ->
  exists ext,
    wrapped_call rev rt getStub options prop args target tr
    = (Resolved v, tr ++ ext)
    /\ count_calls ext = k
    /\ calls_are prop args ext
    /\ hd_error ext = Some (ECall target prop args)
    /\ count_getStub ext = (k - 1)%nat.
Proof.
  intros Hk HN Hfail Hok.
  destruct (maxAttempts_merged options) as [HA HB].
  destruct rev; unfold wrapped_call, RevA.retrying_call, RevB.retrying_call;
    cbv zeta.
  - destruct (RevA_succeeds_after rt getStub prop args v
                (RevA.merge_options options) (k - 1) 1 JUndefined target tr)
      as [ext [Hrun [Hc [Hg [Hcalls Hhd]]]]].
    + rewrite HA. lia.
    + split; assumption.
    + exists ext. conjs; trivial. lia.
  - destruct (RevB_succeeds_after rt getStub prop args v
                (RevB.merge_options options) target (k - 1) 1 JUndefined tr)
      as [ext [Hrun [Hc [Hg [Hcalls Hhd]]]]].
    + lia.
    + rewrite HB. lia.
    + split; assumption.
    + exists ext. conjs; auto; simpl in Hg; lia.
Qed.

Lemma success_on_attempt_k_witness :
  let rt :=
    Mock.runtime [Rejected (Mock.createRetryableError "transient-1");
                  Rejected (Mock.createRetryableError "transient-2")]
      (Resolved (JStr "success")) in
  exists ext,
    wrapped_call RevisionA rt Mock.createStub (Some Mock.FAST_RETRY)
      "testMethod" [] 1%nat [EGetStub 1%nat]
    = (Resolved (JStr "success"), [EGetStub 1%nat] ++ ext)
    /\ count_calls ext = 3%nat
    /\ calls_are "testMethod" [] ext
    /\ hd_error ext = Some (ECall 1%nat "testMethod" [])
    /\ count_getStub ext = (3 - 1)%nat.
Proof.
  intros rt.
  apply (success_on_attempt_k RevisionA rt Mock.createStub
           (Some Mock.FAST_RETRY) "testMethod" [] 1%nat [EGetStub 1%nat] 3).
  - lia.
  - vm_compute. discriminate.
  - intros tr' s Hc. simpl in Hc. simpl. unfold Mock.mockMethod.
    destruct (count_calls tr') as [|[|c]]; [| |lia];
      eexists; split; reflexivity.
  - intros tr' s Hc. simpl in Hc. simpl. unfold Mock.mockMethod.
    now rewrite Hc.
Defined.

(* ===================================================================== *)
(** * What a run adds to the trace *)
(* ===================================================================== *)

Section Runs.
Variable rt : Runtime.
Variable getStub : StubGetter.
Variable prop : string.
Variable args : list JsValue.

Lemma RevA_loop_trace (options : RevA.Options) :
  forall (n : nat) attempt lastError stub tr,
    Z.to_nat (RevA.maxAttempts options + 1 - attempt) = n ->
    exists ext,
      snd (RevA.retry_loop rt getStub options prop args attempt lastError
             stub tr) = tr ++ ext
      /\ retries_on_fresh_handles getStub tr (Some stub) ext
      /\ (attempt <= RevA.maxAttempts options -> (1 <= count_calls ext)%nat).
Proof.
  induction n as [|n IH]; intros attempt lastError stub tr Hn;
    rewrite RevA_retry_loop_unfold;
    destruct (Z.leb_spec attempt (RevA.maxAttempts options)); try lia;
    try (exists []; rewrite app_nil_r; simpl; conjs; trivial; lia).
  cbv zeta.
  assert (Hone : exists ext,
             tr ++ [ECall stub prop args] = tr ++ ext
             /\ retries_on_fresh_handles getStub tr (Some stub) ext
             /\ (attempt <= RevA.maxAttempts options ->
                 (1 <= count_calls ext)%nat)).
  { exists [ECall stub prop args]. simpl. conjs; trivial. }
  destruct (rpc rt tr stub prop args) as [v|e]; [exact Hone|].
  destruct (RevA.reaches_retry_logic options e); [|exact Hone].
  destruct (Z.geb_spec attempt (RevA.maxAttempts options)); [exact Hone|].
  clear Hone.
  set (tr1 := tr ++ [ECall stub prop args]).
  set (fresh := getStub tr1).
  set (r := math_random rt (tr1 ++ [EGetStub fresh])).
  set (delay := jitterBackoff r attempt _ _).
  destruct (IH (attempt + 1) e fresh
              ((tr1 ++ [EGetStub fresh]) ++ [ERandom r; EWait delay]))
    as [ext [Hrun [Hfresh _]]]; [lia|].
  exists (ECall stub prop args :: EGetStub fresh :: ERandom r
            :: EWait delay :: ext).
  rewrite Hrun. conjs.
  - unfold tr1. now rewrite <- !app_assoc.
  - simpl. conjs; trivial.
    replace ((((tr ++ [ECall stub prop args]) ++ [EGetStub fresh])
               ++ [ERandom r]) ++ [EWait delay])
      with ((tr1 ++ [EGetStub fresh]) ++ [ERandom r; EWait delay])
      by (unfold tr1; now rewrite <- !app_assoc).
    exact Hfresh.
  - intros _. simpl. lia.
Qed.

Lemma RevB_loop_trace (options : RevB.Options) (target : Stub) :
  forall (n : nat) attempt lastError tr,
    1 <= attempt ->
    Z.to_nat (RevB.maxAttempts options + 1 - attempt) = n ->
    exists ext,
      snd (RevB.retry_loop rt getStub options prop args target attempt
             lastError tr) = tr ++ ext
      /\ retries_on_fresh_handles getStub tr
           (if attempt =? 1 then Some target else None) ext
      /\ (attempt <= RevB.maxAttempts options -> (1 <= count_calls ext)%nat).
Proof.
  induction n as [|n IH]; intros attempt lastError tr Hpos Hn;
    rewrite RevB_retry_loop_unfold;
    destruct (Z.leb_spec attempt (RevB.maxAttempts options)); try lia;
    try (exists []; rewrite app_nil_r; simpl; conjs; trivial; lia).
  unfold RevB.current_stub.
  set (in_hand := if attempt =? 1 then Some target else None).
  assert (Hcur : exists stub pre,
             (if attempt =? 1 then (target, tr)
              else (getStub tr, tr ++ [EGetStub (getStub tr)]))
             = (stub, tr ++ pre)
             /\ count_calls pre = 0%nat
             /\ forall rest,
                 retries_on_fresh_handles getStub
                   ((tr ++ pre) ++ [ECall stub prop args]) None rest ->
                 retries_on_fresh_handles getStub tr in_hand
                   (pre ++ ECall stub prop args :: rest)).
  { unfold in_hand. destruct (attempt =? 1).
    - exists target, []. rewrite app_nil_r. simpl. conjs; trivial.
      intros rest Hrest. conjs; trivial.
    - exists (getStub tr), [EGetStub (getStub tr)]. simpl. conjs; trivial.
      intros rest Hrest. conjs; trivial. }
  destruct Hcur as [stub [pre [-> [Hpc Hwrap]]]]. cbv zeta.
  assert (Hone : exists ext,
             (tr ++ pre) ++ [ECall stub prop args] = tr ++ ext
             /\ retries_on_fresh_handles getStub tr in_hand ext
             /\ (attempt <= RevB.maxAttempts options ->
                 (1 <= count_calls ext)%nat)).
  { exists (pre ++ [ECall stub prop args]). conjs.
    - now rewrite app_assoc.
    - apply Hwrap. exact I.
    - intros _. rewrite count_calls_app. simpl. lia. }
  destruct (rpc rt (tr ++ pre) stub prop args) as [v|e]; [exact Hone|].
  destruct (RevB.isRetryable options e); [|exact Hone].
  destruct (Z.geb_spec attempt (RevB.maxAttempts options)); [exact Hone|].
  clear Hone.
  set (tr1 := (tr ++ pre) ++ [ECall stub prop args]).
  set (r := math_random rt tr1).
  set (delay := jitterBackoff r attempt _ _).
  destruct (IH (attempt + 1) e (tr1 ++ [ERandom r; EWait delay]))
    as [ext [Hrun [Hfresh _]]]; [lia|lia|].
  destruct (Z.eqb_spec (attempt + 1) 1); [lia|].
  exists (pre ++ ECall stub prop args :: ERandom r :: EWait delay :: ext).
  rewrite Hrun. conjs.
  - unfold tr1. now rewrite <- !app_assoc.
  - apply Hwrap. simpl. conjs; trivial.
    replace ((((tr ++ pre) ++ [ECall stub prop args]) ++ [ERandom r])
               ++ [EWait delay])
      with (tr1 ++ [ERandom r; EWait delay])
      by (unfold tr1; now rewrite <- !app_assoc).
    exact Hfresh.
  - intros _. rewrite count_calls_app. simpl. lia.
Qed.

End Runs.

(** A chain of attempts on handles in hand never calls the same handle
    twice in a row when the getter hands out fresh handles. *)
Lemma fresh_chain_after (getStub : StubGetter) :
  getter_fresh getStub ->
  forall ext before in_hand prev,
    retries_on_fresh_handles getStub before in_hand ext ->
    In prev (handles_of before) ->
    (forall s, in_hand = Some s -> s <> prev) ->
    distinct_neighbours (prev :: called_handles ext).
Proof.
  intros Hfresh. induction ext as [|ev ext IH];
    intros before in_hand prev Hchain Hprev Hhand; [exact I|].
  destruct Hchain as [Hev Hrest].
  destruct ev as [s p a|s|r|d|f this a|ns j]; simpl in *.
  - split; [intros Heq; apply (Hhand s Hev); auto|].
    apply (IH _ _ _ Hrest).
    + rewrite handles_of_app. apply in_or_app. right. simpl. auto.
    + discriminate.
  - apply (IH _ _ _ Hrest).
    + rewrite handles_of_app. apply in_or_app. now left.
    + intros s' Hs'. injection Hs' as <-. subst s.
      intros Heq. apply (Hfresh before). now rewrite Heq.
  - apply (IH _ _ _ Hrest); [|exact Hhand].
    rewrite handles_of_app. simpl. now rewrite app_nil_r.
  - apply (IH _ _ _ Hrest); [|exact Hhand].
    rewrite handles_of_app. simpl. now rewrite app_nil_r.
  - apply (IH _ _ _ Hrest); [|exact Hhand].
    rewrite handles_of_app. simpl. now rewrite app_nil_r.
  - apply (IH _ _ _ Hrest); [|exact Hhand].
    rewrite handles_of_app. simpl. now rewrite app_nil_r.
Qed.

Lemma fresh_chain_distinct (getStub : StubGetter) :
  getter_fresh getStub ->
  forall ext before in_hand,
    retries_on_fresh_handles getStub before in_hand ext ->
    distinct_neighbours (called_handles ext).
Proof.
  intros Hfresh. induction ext as [|ev ext IH]; intros before in_hand Hchain;
    [exact I|].
  destruct Hchain as [Hev Hrest].
  destruct ev as [s p a|s|r|d|f this a|ns j]; simpl; try (eapply IH; eauto).
  apply (fresh_chain_after getStub Hfresh ext _ _ s Hrest).
  - rewrite handles_of_app. apply in_or_app. right. simpl. auto.
  - discriminate.
Qed.

Lemma createStub_fresh : getter_fresh Mock.createStub.
Proof.
  intros tr Hin. unfold Mock.createStub in Hin.
  assert (Hall : forall l x, In x l -> (x <= list_max l)%nat).
  { induction l as [|y l IHl]; intros x []; simpl.
    - subst. lia.
    - specialize (IHl x H). lia. }
  apply Hall in Hin. lia.
Qed.

(* ===================================================================== *)
(** * Fresh handles *)
(* ===================================================================== *)

(** C7.  In every wrapped call the first attempt is made on the handle
    the proxy holds, and every later attempt is made on a handle that the
    getter returned after the attempt before it was made; nothing but a
    getter result is ever used for a retry, whatever the error that led to
    it.  With a getter that hands out fresh handles, as the platform's
    [get] and [getByName] do, the handle of attempt [k > 1] therefore
    differs from the handle of attempt [k-1]; in both revisions. *)
Theorem retry_uses_fresh_handle (rev : Revision) (rt : Runtime)
    (getStub : StubGetter) (options : option RetryOptions) (prop : string)
    (args : list JsValue) (target : Stub) (tr : Trace) :
  getter_fresh getStub ->
  exists ext,
    snd (wrapped_call rev rt getStub options prop args target tr) = tr ++ ext
    /\ retries_on_fresh_handles getStub tr (Some target) ext
    /\ distinct_neighbours (called_handles ext).
Proof.
  intros Hfresh.
  assert (H : exists ext,
             snd (wrapped_call rev rt getStub options prop args target tr)
             = tr ++ ext
             /\ retries_on_fresh_handles getStub tr (Some target) ext).
  { destruct rev; unfold wrapped_call, RevA.retrying_call,
      RevB.retrying_call; cbv zeta.
    - destruct (RevA_loop_trace rt getStub prop args
                  (RevA.merge_options options) _ 1 JUndefined target tr
                  eq_refl) as [ext [Hrun [Hchain _]]].
      now exists ext.
    - destruct (RevB_loop_trace rt getStub prop args
                  (RevB.merge_options options) target _ 1 JUndefined tr
                  ltac:(lia) eq_refl) as [ext [Hrun [Hchain _]]].
      now exists ext. }
  destruct H as [ext [Hrun Hchain]]. exists ext. conjs; trivial.
  exact (fresh_chain_distinct getStub Hfresh ext tr _ Hchain).
Qed.

Lemma retry_uses_fresh_handle_witness :
  exists ext,
    snd (wrapped_call RevisionA
           (Mock.runtime [Rejected (Mock.createRetryableError "transient-1");
                          Rejected (Mock.createRetryableError "transient-2")]
              (Resolved (JStr "success")))
           Mock.createStub (Some Mock.FAST_RETRY) "testMethod" [] 1%nat
           [EGetStub 1%nat])
    = [EGetStub 1%nat] ++ ext
    /\ retries_on_fresh_handles Mock.createStub [EGetStub 1%nat]
         (Some 1%nat) ext
    /\ distinct_neighbours (called_handles ext).
Proof.
  apply (retry_uses_fresh_handle RevisionA). exact createStub_fresh.
Defined.

(* ===================================================================== *)
(** * Which errors are retried *)
(* ===================================================================== *)

Lemma reaches_retry_logic_iff (options : RevA.Options) (e : JsValue) :
  RevA.reaches_retry_logic options e = true <->
  isErrorRetryable e = true
  \/ exists p, RevA.isRetryable options = Some p /\ p e = true.
Proof.
  unfold RevA.reaches_retry_logic.
  destruct (isErrorRetryable e); [intuition|].
  destruct (RevA.isRetryable options) as [p|].
  - destruct (p e) eqn:Hp.
    + split; [right; now exists p | reflexivity].
    + split; [discriminate|].
      intros [H|[q [Hq Hqe]]]; [discriminate|]. injection Hq as <-. congruence.
  - split; [discriminate|]. intros [H|[q [Hq _]]]; discriminate.
Qed.

(** C1, as amended.  Under a configuration that carries a predicate [p],
    when an attempt within the budget ([attempt < maxAttempts]) fails with
    [e]:
    - in revision A another method call follows exactly when the built-in
      rule accepts [e] or [p e] is true, so [p e = false] does not stop the
      retry of an error the built-in rule accepts;
    - in revision B another method call follows exactly when [p e] is
      true: the predicate stands in for the built-in rule. *)
Theorem retry_iff_classifier_accepts (rt : Runtime) (getStub : StubGetter)
    (o : RetryOptions) (p : JsValue -> bool) (prop : string)
    (args : list JsValue) (target : Stub) (attempt : Z)
    (lastError : JsValue) (stub : Stub) (tr : Trace) (e : JsValue) :
  ro_isRetryable o = Some p ->
  1 <= attempt < maxAttempts_of (Some o) ->
  rpc rt tr stub prop args = Rejected e ->
  ((count_calls tr + 2
    <= count_calls
         (snd (RevA.retry_loop rt getStub (RevA.merge_options (Some o)) prop
                 args attempt lastError stub tr)))%nat
   <-> isErrorRetryable e = true \/ p e = true)
  /\ (forall tr0,
         RevB.current_stub getStub target attempt tr0 = (stub, tr) ->
         ((count_calls tr + 2
           <= count_calls
                (snd (RevB.retry_loop rt getStub (RevB.merge_options (Some o))
                        prop args target attempt lastError tr0)))%nat
          <-> p e = true)).
Proof.
  intros Hp [Hpos Hbudget] He.
  destruct (maxAttempts_merged (Some o)) as [HA HB].
  split.
  - rewrite RevA_retry_loop_unfold, He. cbv zeta.
    destruct (Z.leb_spec attempt (RevA.maxAttempts (RevA.merge_options (Some o))))
      as [Hle|Hgt]; [|lia].
    destruct (Z.geb_spec attempt (RevA.maxAttempts (RevA.merge_options (Some o))))
      as [Hge|Hlt]; [lia|].
    pose proof (reaches_retry_logic_iff (RevA.merge_options (Some o)) e) as Hiff.
    simpl RevA.isRetryable in Hiff. rewrite Hp in Hiff.
    destruct (RevA.reaches_retry_logic (RevA.merge_options (Some o)) e).
    + split.
      * intros _. destruct (proj1 Hiff eq_refl) as [H|[q [Hq Hqe]]]; [now left|].
        injection Hq as <-. now right.
      * intros _.
        match goal with
        | |- context [RevA.retry_loop ?r ?g ?op ?pr ?ar ?at' ?le ?st ?t] =>
            destruct (RevA_loop_trace r g pr ar op _ at' le st t eq_refl)
              as [ext [Hrun [_ Hcount]]]
        end.
        rewrite Hrun, !count_calls_app. simpl.
        specialize (Hcount ltac:(lia)). lia.
    + split.
      * simpl. rewrite count_calls_app. simpl. lia.
      * intros [Hb|Hc]; [assert (false = true) by (apply Hiff; now left)
                        | assert (false = true)
                            by (apply Hiff; right; now exists p)];
          discriminate.
  - intros tr0 Hcur.
    rewrite RevB_retry_loop_unfold, Hcur, He. cbv zeta.
    destruct (Z.leb_spec attempt (RevB.maxAttempts (RevB.merge_options (Some o))))
      as [Hle|Hgt]; [|lia].
    destruct (Z.geb_spec attempt (RevB.maxAttempts (RevB.merge_options (Some o))))
      as [Hge|Hlt]; [lia|].
    replace (RevB.isRetryable (RevB.merge_options (Some o))) with p
      by (simpl; now rewrite Hp).
    destruct (p e).
    + split; [reflexivity|]. intros _.
      match goal with
      | |- context [RevB.retry_loop ?r ?g ?op ?pr ?ar ?tg ?at' ?le ?t] =>
          destruct (RevB_loop_trace r g pr ar op tg _ at' le t
                      ltac:(lia) eq_refl)
            as [ext [Hrun [_ Hcount]]]
      end.
      rewrite Hrun, !count_calls_app. simpl.
      specialize (Hcount ltac:(lia)). lia.
    + split; [|discriminate].
      simpl. rewrite count_calls_app. simpl. lia.
Qed.

Lemma retry_iff_classifier_accepts_witness :
  let e := Mock.createNonRetryableError "app-error" in
  let rt := Mock.runtime [Rejected e] (Resolved (JStr "success")) in
  let o := Mock.with_isRetryable (fun _ => true) Mock.FAST_RETRY in
  ((count_calls [EGetStub 1%nat] + 2
    <= count_calls
         (snd (RevA.retry_loop rt Mock.createStub (RevA.merge_options (Some o))
                 "testMethod" [] 1 JUndefined 1%nat [EGetStub 1%nat])))%nat
   <-> isErrorRetryable e = true \/ true = true)
  /\ ((count_calls [EGetStub 1%nat] + 2
       <= count_calls
            (snd (RevB.retry_loop rt Mock.createStub
                    (RevB.merge_options (Some o)) "testMethod" [] 1%nat 1
                    JUndefined [EGetStub 1%nat])))%nat
      <-> true = true).
Proof.
  intros e rt o.
  destruct (retry_iff_classifier_accepts rt Mock.createStub o (fun _ => true)
              "testMethod" [] 1%nat 1 JUndefined 1%nat [EGetStub 1%nat] e)
    as [HA HB]; [reflexivity | split; [lia | reflexivity] | reflexivity |].
  split; [exact HA | exact (HB [EGetStub 1%nat] eq_refl)].
Defined.

(** C1, as stated, fails in revision B: a predicate that answers [false]
    suppresses the retry of an error the built-in rule accepts.  With
    [isRetryable: () => false], three attempts allowed and a method that
    rejects with a [retryable] error, the method is called once and the
    error is rethrown. *)
Lemma predicate_false_suppresses_retry :
  let e := Mock.createRetryableError "transient" in
  let rt := Mock.runtime [] (Rejected e) in
  let o := Mock.with_isRetryable (fun _ => false) Mock.FAST_RETRY in
  let run :=
    RevB.getByName_then_call rt Mock.namespace (Some o) (JStr "test")
      "testMethod" [] [] in
  isErrorRetryable e = true
  /\ 1 < maxAttempts_of (Some o)
  /\ run = (Rejected e, [EGetStub 1%nat; ECall 1%nat "testMethod" []])
  /\ ~ ((count_calls [EGetStub 1%nat] + 2 <= count_calls (snd run))%nat
        <-> isErrorRetryable e = true \/ false = true).
Proof.
  cbv zeta. conjs; try reflexivity.
  intros [_ H].
  assert (Hle : (count_calls [EGetStub 1%nat] + 2
                 <= count_calls
                      [EGetStub 1%nat; ECall 1%nat "testMethod" []])%nat)
    by (apply H; now left).
  simpl in Hle. lia.
Qed.

Lemma overload_not_builtin_retryable (e : JsValue) :
  signals_overload e -> isErrorRetryable e = false.
Proof.
  unfold signals_overload, isErrorRetryable. cbv zeta.
  intros [H|H]; rewrite H; simpl.
  - now rewrite andb_false_r.
  - now rewrite andb_false_r.
Qed.

(** C3, as amended.  When the first attempt fails with an error that
    signals overload, under a configuration with [maxAttempts > 1] that
    carries no predicate, or whose predicate answers [false] on that
    error, the wrapped call has made exactly one method call and rejects
    with that error at once, with no handle acquired and no wait; in both
    revisions. *)
Theorem overloaded_error_not_retried (rev : Revision) (rt : Runtime)
    (getStub : StubGetter) (options : option RetryOptions) (prop : string)
    (args : list JsValue) (target : Stub) (tr : Trace) (e : JsValue) :
  signals_overload e ->
  1 < maxAttempts_of options ->
  match predicate_of options with
  | Some p => p e = false
  | None => True
  end ->
  rpc rt tr target prop args = Rejected e ->
  wrapped_call rev rt getStub options prop args target tr
  = (Rejected e, tr ++ [ECall target prop args]).
Proof.
  intros Hover Hmax Hpred He.
  apply overload_not_builtin_retryable in Hover.
  destruct (maxAttempts_merged options) as [HA HB].
  destruct rev; unfold wrapped_call, RevA.retrying_call, RevB.retrying_call;
    cbv zeta.
  - rewrite RevA_retry_loop_unfold, He. cbv zeta.
    destruct (Z.leb_spec 1 (RevA.maxAttempts (RevA.merge_options options)));
      [|lia].
    assert (Hno : RevA.reaches_retry_logic (RevA.merge_options options) e
                  = false).
    { unfold RevA.reaches_retry_logic. rewrite Hover.
      change (RevA.isRetryable (RevA.merge_options options))
        with (predicate_of options).
      destruct (predicate_of options); [now rewrite Hpred | reflexivity]. }
    now rewrite Hno.
  - rewrite RevB_retry_loop_unfold. unfold RevB.current_stub. simpl (1 =? 1).
    cbv iota. rewrite He. cbv zeta.
    destruct (Z.leb_spec 1 (RevB.maxAttempts (RevB.merge_options options)));
      [|lia].
    assert (Hno : RevB.isRetryable (RevB.merge_options options) e = false).
    { change (RevB.isRetryable (RevB.merge_options options))
        with (match predicate_of options with
              | Some p => p
              | None => isErrorRetryable
              end).
      destruct (predicate_of options); assumption. }
    now rewrite Hno.
Qed.

Lemma overloaded_error_not_retried_witness :
  wrapped_call RevisionA
    (Mock.runtime [] (Rejected (Mock.createOverloadedError "overloaded")))
    Mock.createStub (Some Mock.FAST_RETRY) "testMethod" [] 1%nat
    [EGetStub 1%nat]
  = (Rejected (Mock.createOverloadedError "overloaded"),
     [EGetStub 1%nat] ++ [ECall 1%nat "testMethod" []]).
Proof.
  apply (overloaded_error_not_retried RevisionA).
  - left. reflexivity.
  - reflexivity.
  - exact I.
  - reflexivity.
Defined.

(** C3, as stated, fails when the caller's predicate accepts the
    overloaded error: with [isRetryable: () => true] and three attempts
    allowed, a method that keeps rejecting with an overloaded error is
    called three times, in either revision. *)
Lemma accepting_predicate_retries_overloaded_error :
  let e := Mock.createOverloadedError "overloaded" in
  let rt := Mock.runtime [] (Rejected e) in
  let o := Mock.with_isRetryable (fun _ => true) Mock.FAST_RETRY in
  signals_overload e
  /\ 1 < maxAttempts_of (Some o)
  /\ count_calls
       (snd (RevA.getByName_then_call rt Mock.namespace (Some o) (JStr "test")
               "testMethod" [] [])) = 3%nat
  /\ count_calls
       (snd (RevB.getByName_then_call rt Mock.namespace (Some o) (JStr "test")
               "testMethod" [] [])) = 3%nat.
Proof.
  cbv zeta. conjs; try reflexivity. left. reflexivity.
Qed.

(* ===================================================================== *)
(** * Transparent members *)
(* ===================================================================== *)

(** C8.  Reading a member of a stub proxy whose underlying value is not
    a function returns that value itself, not the retrying closure.  And
    calling, on a namespace proxy, any function member other than [get],
    [getByName] and [jurisdiction] (so [idFromName], [idFromString],
    [newUniqueId]) applies the underlying function once, with the
    underlying namespace as [this] and the same arguments, and returns
    what it returned: the same result and the same single event as the
    direct call on the namespace. *)
Theorem other_members_pass_through (rt : Runtime) :
  (forall (proxy : RevA.StubProxy) (prop : PropKey) (v : JsValue),
      stub_member rt (RevA.target proxy) prop RTarget = MValue v ->
      RevA.stub_proxy_get rt proxy prop = SPValue (MValue v))
  /\ (forall (namespace : Namespace) (options : option RetryOptions)
             (prop : PropKey) (f : FunctionId) (args : list JsValue)
             (tr : Trace),
         ns_member rt namespace prop RProxy = MFunction f ->
         prop <> KStr "get" -> prop <> KStr "getByName" ->
         prop <> KStr "jurisdiction" ->
         RevA.namespace_proxy_call rt (RevA.withRetry namespace options) prop
           args tr
         = (RevA.RPlain (fst (direct_call rt namespace f args tr)),
            snd (direct_call rt namespace f args tr))
         /\ snd (direct_call rt namespace f args tr)
            = tr ++ [EApply f namespace args]).
Proof.
  split.
  - intros proxy prop v Hv. unfold RevA.stub_proxy_get. now rewrite Hv.
  - intros namespace options prop f args tr Hf Hget Hname Hjur.
    split; [|reflexivity].
    unfold RevA.namespace_proxy_call, namespace_proxy_get. simpl.
    rewrite Hf.
    assert (Hno : forall name, prop <> KStr name -> prop_is prop name = false).
    { intros name Hne. destruct prop as [s|s]; simpl; [|reflexivity].
      destruct (String.eqb_spec s name); [congruence|reflexivity]. }
    rewrite !Hno by assumption. reflexivity.
Qed.

Lemma other_members_pass_through_witness :
  let rt := Mock.runtime [] (Resolved (JStr "success")) in
  let proxy := fst (RevA.createStubProxy Mock.createStub
                      (RevA.merge_options None) []) in
  RevA.stub_proxy_get rt proxy (KStr "name") = SPValue (MValue (JStr "test-stub"))
  /\ RevA.namespace_proxy_call rt (RevA.withRetry Mock.namespace None)
       (KStr "idFromName") [JStr "test-name"] []
     = (RevA.RPlain (Resolved (JObject [(own "id", JStr "test-name")])),
        [EApply Mock.fn_idFromName Mock.namespace [JStr "test-name"]]).
Proof.
  intros rt proxy.
  destruct (other_members_pass_through rt) as [Hstub Hns].
  split.
  - apply Hstub. reflexivity.
  - apply (Hns Mock.namespace None (KStr "idFromName") Mock.fn_idFromName
             [JStr "test-name"] []); [reflexivity | discriminate ..].
Defined.

(* ===================================================================== *)
(** * The test suite, replayed *)
(* ===================================================================== *)

(** Each example replays one test of [retry-proxy.test.ts] on the mock
    namespace, in revision A and, where the test exercises the engine, in
    revision B as well.  [count_getStub] is [stubCreationCount]. *)

Example test_passes_through_successful_calls :
  RevA.getByName_then_call (Mock.runtime [] (Resolved (JStr "success")))
    Mock.namespace None (JStr "test") "testMethod" [JStr "arg1"] []
  = (Resolved (JStr "success"),
     [EGetStub 1%nat; ECall 1%nat "testMethod" [JStr "arg1"]]).
Proof. reflexivity. Qed.

Example test_retries_and_succeeds :
  let rt :=
    Mock.runtime [Rejected (Mock.createRetryableError "transient-1");
                  Rejected (Mock.createRetryableError "transient-2")]
      (Resolved (JStr "success")) in
  let runA := RevA.getByName_then_call rt Mock.namespace (Some Mock.FAST_RETRY)
                (JStr "test") "testMethod" [] [] in
  let runB := RevB.getByName_then_call rt Mock.namespace (Some Mock.FAST_RETRY)
                (JStr "test") "testMethod" [] [] in
  runA = (Resolved (JStr "success"),
          [EGetStub 1%nat; ECall 1%nat "testMethod" [];
           EGetStub 2%nat; ERandom Mock.draw; EWait (number_of_Z 1);
           ECall 2%nat "testMethod" [];
           EGetStub 3%nat; ERandom Mock.draw; EWait (number_of_Z 2);
           ECall 3%nat "testMethod" []])
  /\ runB = (Resolved (JStr "success"),
             [EGetStub 1%nat; ECall 1%nat "testMethod" [];
              ERandom Mock.draw; EWait (number_of_Z 1); EGetStub 2%nat;
              ECall 2%nat "testMethod" [];
              ERandom Mock.draw; EWait (number_of_Z 2); EGetStub 3%nat;
              ECall 3%nat "testMethod" []])
  /\ count_calls (snd runA) = 3%nat /\ count_getStub (snd runA) = 3%nat
  /\ count_calls (snd runB) = 3%nat /\ count_getStub (snd runB) = 3%nat.
Proof. cbv zeta. conjs; reflexivity. Qed.

Example test_does_not_retry_non_retryable_errors :
  let e := Mock.createNonRetryableError "fatal" in
  RevA.getByName_then_call (Mock.runtime [] (Rejected e)) Mock.namespace
    (Some Mock.FAST_RETRY) (JStr "test") "testMethod" [] []
  = (Rejected e, [EGetStub 1%nat; ECall 1%nat "testMethod" []]).
Proof. reflexivity. Qed.

Example test_does_not_retry_overloaded_errors :
  let e := Mock.createOverloadedError "overloaded" in
  RevA.getByName_then_call (Mock.runtime [] (Rejected e)) Mock.namespace
    (Some Mock.FAST_RETRY) (JStr "test") "testMethod" [] []
  = (Rejected e, [EGetStub 1%nat; ECall 1%nat "testMethod" []])
  /\ RevB.getByName_then_call (Mock.runtime [] (Rejected e)) Mock.namespace
       (Some Mock.FAST_RETRY) (JStr "test") "testMethod" [] []
     = (Rejected e, [EGetStub 1%nat; ECall 1%nat "testMethod" []]).
Proof. split; reflexivity. Qed.

Example test_respects_maxAttempts_limit :
  let e := Mock.createRetryableError "always-fails" in
  let run :=
    RevA.getByName_then_call (Mock.runtime [] (Rejected e)) Mock.namespace
      (Some (Mock.with_maxAttempts 2 Mock.FAST_RETRY)) (JStr "test")
      "testMethod" [] [] in
  fst run = Rejected e /\ count_calls (snd run) = 2%nat
  /\ count_waits (snd run) = 1%nat.
Proof. cbv zeta. conjs; reflexivity. Qed.

Example test_custom_isRetryable_for_application_errors :
  let e := Mock.createNonRetryableError "app-error" in
  let rt := Mock.runtime [Rejected e] (Resolved (JStr "success")) in
  let o := Mock.with_isRetryable (fun _ => true) Mock.FAST_RETRY in
  let runA := RevA.getByName_then_call rt Mock.namespace (Some o) (JStr "test")
                "testMethod" [] [] in
  let runB := RevB.getByName_then_call rt Mock.namespace (Some o) (JStr "test")
                "testMethod" [] [] in
  fst runA = Resolved (JStr "success") /\ count_calls (snd runA) = 2%nat
  /\ fst runB = Resolved (JStr "success") /\ count_calls (snd runB) = 2%nat.
Proof. cbv zeta. conjs; reflexivity. Qed.

Example test_retries_up_to_maxAttempts_with_backoff :
  let rt :=
    Mock.runtime [Rejected (Mock.createRetryableError "fail-1");
                  Rejected (Mock.createRetryableError "fail-2");
                  Rejected (Mock.createRetryableError "fail-3")]
      (Resolved (JStr "success")) in
  let run :=
    RevA.getByName_then_call rt Mock.namespace
      (Some (Mock.with_maxAttempts 4 Mock.FAST_RETRY)) (JStr "test")
      "testMethod" [] [] in
  fst run = Resolved (JStr "success") /\ count_calls (snd run) = 4%nat.
Proof. cbv zeta. conjs; reflexivity. Qed.

Example test_passes_through_non_function_properties :
  let rt := Mock.runtime [] (Resolved (JStr "success")) in
  let proxy := fst (RevA.createStubProxy Mock.createStub
                      (RevA.merge_options None) []) in
  RevA.stub_proxy_get rt proxy (KStr "name") = SPValue (MValue (JStr "test-stub"))
  /\ RevA.stub_proxy_get rt proxy (KStr "id") = SPValue (MValue (JObject []))
  /\ RevA.stub_proxy_get rt proxy (KStr "testMethod") = SPRetrying "testMethod".
Proof. cbv zeta. conjs; reflexivity. Qed.

Example test_preserves_namespace_utility_methods :
  let rt := Mock.runtime [] (Resolved (JStr "success")) in
  let wrapped := RevA.withRetry Mock.namespace None in
  snd (RevA.namespace_proxy_call rt wrapped (KStr "idFromName")
         [JStr "test-name"] [])
  = [EApply Mock.fn_idFromName Mock.namespace [JStr "test-name"]]
  /\ snd (RevA.namespace_proxy_call rt wrapped (KStr "idFromString")
            [JStr "test-id"] [])
     = [EApply Mock.fn_idFromString Mock.namespace [JStr "test-id"]]
  /\ snd (RevA.namespace_proxy_call rt wrapped (KStr "newUniqueId") [] [])
     = [EApply Mock.fn_newUniqueId Mock.namespace []]
  /\ namespace_proxy_get rt Mock.namespace (KStr "get") = NPGet
  /\ namespace_proxy_get rt Mock.namespace (KStr "getByName") = NPGetByName
  /\ namespace_proxy_get rt Mock.namespace (KStr "jurisdiction")
     = NPJurisdiction.
Proof. cbv zeta. conjs; reflexivity. Qed.

(* ===================================================================== *)
(** * Further properties of the attempt loops *)
(* ===================================================================== *)

Lemma count_waits_app (a b : Trace) :
  count_waits (a ++ b) = (count_waits a + count_waits b)%nat.
Proof.
  induction a as [|ev a IH]; simpl; [reflexivity|].
  destruct ev; simpl; rewrite IH; reflexivity.
Qed.

Lemma wait_delays_app (a b : Trace) :
  wait_delays (a ++ b) = wait_delays a ++ wait_delays b.
Proof.
  induction a as [|ev a IH]; simpl; [reflexivity|].
  destruct ev; simpl; rewrite IH; reflexivity.
Qed.

Lemma random_draws_app (a b : Trace) :
  random_draws (a ++ b) = random_draws a ++ random_draws b.
Proof.
  induction a as [|ev a IH]; simpl; [reflexivity|].
  destruct ev; simpl; rewrite IH; reflexivity.
Qed.

Section MoreRuns.
Variable rt : Runtime.
Variable getStub : StubGetter.
Variable prop : string.
Variable args : list JsValue.

(** ** Counting, first and last call *)

Lemma RevA_run_counts (options : RevA.Options) :
  forall (n : nat) attempt lastError stub tr,
    Z.to_nat (RevA.maxAttempts options + 1 - attempt) = n ->
    exists out ext,
      RevA.retry_loop rt getStub options prop args attempt lastError stub tr
      = (out, tr ++ ext)
      /\ (count_calls ext <= n)%nat
      /\ count_getStub ext = pred (count_calls ext)
      /\ count_waits ext = pred (count_calls ext)
      /\ (attempt <= RevA.maxAttempts options ->
          (exists rest, ext = ECall stub prop args :: rest)
          /\ exists pre s,
               tr ++ ext = pre ++ [ECall s prop args]
               /\ out = rpc rt pre s prop args).
Proof.
  induction n as [|n IH]; intros attempt lastError stub tr Hn;
    rewrite RevA_retry_loop_unfold;
    destruct (Z.leb_spec attempt (RevA.maxAttempts options)); try lia;
    try (exists (Rejected lastError), []; rewrite app_nil_r; simpl;
         conjs; trivial; lia).
  cbv zeta.
  assert (Hone : exists out ext,
             (rpc rt tr stub prop args, tr ++ [ECall stub prop args])
             = (out, tr ++ ext)
             /\ (count_calls ext <= S n)%nat
             /\ count_getStub ext = pred (count_calls ext)
             /\ count_waits ext = pred (count_calls ext)
             /\ (attempt <= RevA.maxAttempts options ->
                 (exists rest, ext = ECall stub prop args :: rest)
                 /\ exists pre s,
                      tr ++ ext = pre ++ [ECall s prop args]
                      /\ out = rpc rt pre s prop args)).
  { exists (rpc rt tr stub prop args), [ECall stub prop args]. simpl.
    conjs; trivial; try lia. intros _. split; [now exists []|].
    now exists tr, stub. }
  destruct (rpc rt tr stub prop args) as [v|e] eqn:He; [exact Hone|].
  destruct (RevA.reaches_retry_logic options e); [|exact Hone].
  destruct (Z.geb_spec attempt (RevA.maxAttempts options)); [exact Hone|].
  clear Hone.
  set (tr1 := tr ++ [ECall stub prop args]).
  set (fresh := getStub tr1).
  set (r := math_random rt (tr1 ++ [EGetStub fresh])).
  set (delay := jitterBackoff r attempt _ _).
  destruct (IH (attempt + 1) e fresh
              ((tr1 ++ [EGetStub fresh]) ++ [ERandom r; EWait delay]))
    as [out [ext [Hrun [Hc [Hg [Hw Hlast]]]]]]; [lia|].
  destruct (Hlast ltac:(lia)) as [[rest Hrest] [pre [s [Hpre Hout]]]].
  exists out, (ECall stub prop args :: EGetStub fresh :: ERandom r
                 :: EWait delay :: ext).
  rewrite Hrun. conjs.
  - unfold tr1. now rewrite <- !app_assoc.
  - simpl. lia.
  - simpl. rewrite Hg, Hrest. simpl. reflexivity.
  - simpl. rewrite Hw, Hrest. simpl. reflexivity.
  - intros _. split; [eexists; reflexivity|].
    exists pre, s. split; [|exact Hout].
    rewrite <- Hpre. unfold tr1. now rewrite <- !app_assoc.
Qed.

Lemma RevB_run_counts (options : RevB.Options) (target : Stub) :
  forall (n : nat) attempt lastError tr,
    1 <= attempt ->
    Z.to_nat (RevB.maxAttempts options + 1 - attempt) = n ->
    exists out ext,
      RevB.retry_loop rt getStub options prop args target attempt lastError tr
      = (out, tr ++ ext)
      /\ (count_calls ext <= n)%nat
      /\ count_getStub ext
         = (if attempt =? 1 then pred (count_calls ext) else count_calls ext)
      /\ count_waits ext = pred (count_calls ext)
      /\ (attempt <= RevB.maxAttempts options ->
          (1 <= count_calls ext)%nat
          /\ (attempt = 1 -> exists rest, ext = ECall target prop args :: rest)
          /\ exists pre s,
               tr ++ ext = pre ++ [ECall s prop args]
               /\ out = rpc rt pre s prop args).
Proof.
  induction n as [|n IH]; intros attempt lastError tr Hpos Hn;
    rewrite RevB_retry_loop_unfold;
    destruct (Z.leb_spec attempt (RevB.maxAttempts options)); try lia;
    try (exists (Rejected lastError), []; rewrite app_nil_r; simpl;
         conjs; trivial; try lia; now destruct (attempt =? 1)).
  unfold RevB.current_stub.
  assert (Hcur : exists stub pre,
             (if attempt =? 1 then (target, tr)
              else (getStub tr, tr ++ [EGetStub (getStub tr)]))
             = (stub, tr ++ pre)
             /\ count_calls pre = 0%nat
             /\ count_waits pre = 0%nat
             /\ count_getStub pre = (if (attempt =? 1)%Z then 0 else 1)%nat
             /\ (attempt = 1 -> pre = [] /\ stub = target)).
  { destruct (Z.eqb_spec attempt 1) as [->|Hne].
    - exists target, []. rewrite app_nil_r. simpl. conjs; auto.
    - exists (getStub tr), [EGetStub (getStub tr)]. simpl.
      conjs; trivial; contradiction. }
  destruct Hcur as [stub [pre [-> [Hpc [Hpw [Hpg Hfirst]]]]]]. cbv zeta.
  assert (Hone : exists out ext,
             (rpc rt (tr ++ pre) stub prop args,
              (tr ++ pre) ++ [ECall stub prop args])
             = (out, tr ++ ext)
             /\ (count_calls ext <= S n)%nat
             /\ count_getStub ext
                = (if attempt =? 1 then pred (count_calls ext)
                   else count_calls ext)
             /\ count_waits ext = pred (count_calls ext)
             /\ (attempt <= RevB.maxAttempts options ->
                 (1 <= count_calls ext)%nat
                 /\ (attempt = 1 ->
                     exists rest, ext = ECall target prop args :: rest)
                 /\ exists pre' s,
                      tr ++ ext = pre' ++ [ECall s prop args]
                      /\ out = rpc rt pre' s prop args)).
  { exists (rpc rt (tr ++ pre) stub prop args), (pre ++ [ECall stub prop args]).
    rewrite count_calls_app, count_getStub_app, count_waits_app, Hpc, Hpw, Hpg.
    simpl. conjs.
    - now rewrite app_assoc.
    - lia.
    - now destruct (attempt =? 1).
    - reflexivity.
    - intros _. conjs; [lia | |].
      + intros Hone. destruct (Hfirst Hone) as [-> ->]. now exists [].
      + exists (tr ++ pre), stub. split; [now rewrite app_assoc|reflexivity]. }
  destruct (rpc rt (tr ++ pre) stub prop args) as [v|e] eqn:He; [exact Hone|].
  destruct (RevB.isRetryable options e); [|exact Hone].
  destruct (Z.geb_spec attempt (RevB.maxAttempts options)); [exact Hone|].
  clear Hone.
  set (tr1 := (tr ++ pre) ++ [ECall stub prop args]).
  set (r := math_random rt tr1).
  set (delay := jitterBackoff r attempt _ _).
  destruct (IH (attempt + 1) e (tr1 ++ [ERandom r; EWait delay]))
    as [out [ext [Hrun [Hc [Hg [Hw Hlast]]]]]]; [lia|lia|].
  destruct (Z.eqb_spec (attempt + 1) 1); [lia|].
  destruct (Hlast ltac:(lia)) as [Hge1 [_ [pre' [s [Hpre Hout]]]]].
  exists out, (pre ++ ECall stub prop args :: ERandom r :: EWait delay :: ext).
  rewrite Hrun.
  rewrite count_calls_app, count_getStub_app, count_waits_app, Hpc, Hpw, Hpg.
  simpl. conjs.
  - unfold tr1. now rewrite <- !app_assoc.
  - lia.
  - rewrite Hg. destruct (attempt =? 1); lia.
  - rewrite Hw. lia.
  - intros _. conjs; [lia | |].
    + intros Hone. destruct (Hfirst Hone) as [-> ->]. eexists. reflexivity.
    + exists pre', s. split; [|exact Hout].
      rewrite <- Hpre. unfold tr1. now rewrite <- !app_assoc.
Qed.

End MoreRuns.

(** X1.  A wrapped call never makes more method calls than [maxAttempts]
    allows (none at all when [maxAttempts] is not positive), whatever the
    method answers; in both revisions. *)
Theorem calls_bounded_by_maxAttempts (rev : Revision) (rt : Runtime)
    (getStub : StubGetter) (options : option RetryOptions) (prop : string)
    (args : list JsValue) (target : Stub) (tr : Trace) :
  exists ext,
    snd (wrapped_call rev rt getStub options prop args target tr) = tr ++ ext
    /\ (count_calls ext <= Z.to_nat (maxAttempts_of options))%nat.
Proof.
  destruct (maxAttempts_merged options) as [HA HB].
  destruct rev; unfold wrapped_call, RevA.retrying_call, RevB.retrying_call;
    cbv zeta.
  - destruct (RevA_run_counts rt getStub prop args
                (RevA.merge_options options) _ 1 JUndefined target tr eq_refl)
      as [out [ext [Hrun [Hc _]]]].
    exists ext. rewrite Hrun. split; [reflexivity|].
    rewrite HA in Hc. replace (maxAttempts_of options + 1 - 1)
      with (maxAttempts_of options) in Hc by lia. exact Hc.
  - destruct (RevB_run_counts rt getStub prop args
                (RevB.merge_options options) target _ 1 JUndefined tr
                ltac:(lia) eq_refl)
      as [out [ext [Hrun [Hc _]]]].
    exists ext. rewrite Hrun. split; [reflexivity|].
    rewrite HB in Hc. replace (maxAttempts_of options + 1 - 1)
      with (maxAttempts_of options) in Hc by lia. exact Hc.
Qed.

(** X2.  In every wrapped call the number of handles acquired from the
    getter and the number of backoff waits both equal the number of method
    calls minus one (and are zero when no call is made): one acquisition
    and one wait per retry, none for the first attempt and none after the
    last; in both revisions. *)
Theorem one_acquisition_and_wait_per_retry (rev : Revision) (rt : Runtime)
    (getStub : StubGetter) (options : option RetryOptions) (prop : string)
    (args : list JsValue) (target : Stub) (tr : Trace) :
  exists ext,
    snd (wrapped_call rev rt getStub options prop args target tr) = tr ++ ext
    /\ count_getStub ext = pred (count_calls ext)
    /\ count_waits ext = pred (count_calls ext).
Proof.
  destruct rev; unfold wrapped_call, RevA.retrying_call, RevB.retrying_call;
    cbv zeta.
  - destruct (RevA_run_counts rt getStub prop args
                (RevA.merge_options options) _ 1 JUndefined target tr eq_refl)
      as [out [ext [Hrun [_ [Hg [Hw _]]]]]].
    exists ext. rewrite Hrun. now conjs.
  - destruct (RevB_run_counts rt getStub prop args
                (RevB.merge_options options) target _ 1 JUndefined tr
                ltac:(lia) eq_refl)
      as [out [ext [Hrun [_ [Hg [Hw _]]]]]].
    exists ext. rewrite Hrun. now conjs.
Qed.

(** X3.  With [maxAttempts >= 1] the result of a wrapped call is the
    outcome of the last method call it made, passed on as it is: the run
    ends with that call, a resolved value is returned and a rejection is
    rethrown without wrapping; in both revisions.  The rejection values
    are those of [JsValue], which [String()] converts without running
    code of theirs, so classifying them cannot throw instead. *)
Theorem result_is_last_call_outcome (rev : Revision) (rt : Runtime)
    (getStub : StubGetter) (options : option RetryOptions) (prop : string)
    (args : list JsValue) (target : Stub) (tr : Trace) :
  1 <= maxAttempts_of options ->
  exists pre s,
    wrapped_call rev rt getStub options prop args target tr
    = (rpc rt pre s prop args, pre ++ [ECall s prop args]).
Proof.
  intros Hmax.
  destruct (maxAttempts_merged options) as [HA HB].
  destruct rev; unfold wrapped_call, RevA.retrying_call, RevB.retrying_call;
    cbv zeta.
  - destruct (RevA_run_counts rt getStub prop args
                (RevA.merge_options options) _ 1 JUndefined target tr eq_refl)
      as [out [ext [Hrun [_ [_ [_ Hlast]]]]]].
    destruct (Hlast ltac:(lia)) as [_ [pre [s [Hpre Hout]]]].
    exists pre, s. now rewrite Hrun, Hpre, Hout.
  - destruct (RevB_run_counts rt getStub prop args
                (RevB.merge_options options) target _ 1 JUndefined tr
                ltac:(lia) eq_refl)
      as [out [ext [Hrun [_ [_ [_ Hlast]]]]]].
    destruct (Hlast ltac:(lia)) as [_ [_ [pre [s [Hpre Hout]]]]].
    exists pre, s. now rewrite Hrun, Hpre, Hout.
Qed.

Lemma result_is_last_call_outcome_witness :
  exists pre s,
    wrapped_call RevisionB
      (Mock.runtime [Rejected (Mock.createRetryableError "transient-1")]
         (Resolved (JStr "success")))
      Mock.createStub (Some Mock.FAST_RETRY) "testMethod" [] 1%nat
      [EGetStub 1%nat]
    = (rpc (Mock.runtime [Rejected (Mock.createRetryableError "transient-1")]
              (Resolved (JStr "success"))) pre s "testMethod" [],
       pre ++ [ECall s "testMethod" []]).
Proof.
  apply (result_is_last_call_outcome RevisionB). vm_compute. discriminate.
Defined.

(** X4.  With [maxAttempts >= 1] the first attempt of every wrapped call
    is made on the handle the proxy holds, for every call made through the
    proxy, so also after an earlier call failed on that handle: the held
    handle is never replaced; in both revisions. *)
Theorem first_attempt_on_held_handle (rev : Revision) (rt : Runtime)
    (getStub : StubGetter) (options : option RetryOptions) (prop : string)
    (args : list JsValue) (target : Stub) (tr : Trace) :
  1 <= maxAttempts_of options ->
  exists rest,
    snd (wrapped_call rev rt getStub options prop args target tr)
    = tr ++ ECall target prop args :: rest.
Proof.
  intros Hmax.
  destruct (maxAttempts_merged options) as [HA HB].
  destruct rev; unfold wrapped_call, RevA.retrying_call, RevB.retrying_call;
    cbv zeta.
  - destruct (RevA_run_counts rt getStub prop args
                (RevA.merge_options options) _ 1 JUndefined target tr eq_refl)
      as [out [ext [Hrun [_ [_ [_ Hlast]]]]]].
    destruct (Hlast ltac:(lia)) as [[rest Hrest] _].
    exists rest. now rewrite Hrun, Hrest.
  - destruct (RevB_run_counts rt getStub prop args
                (RevB.merge_options options) target _ 1 JUndefined tr
                ltac:(lia) eq_refl)
      as [out [ext [Hrun [_ [_ [_ Hlast]]]]]].
    destruct (Hlast ltac:(lia)) as [_ [Hhd _]].
    destruct (Hhd eq_refl) as [rest Hrest].
    exists rest. now rewrite Hrun, Hrest.
Qed.

Lemma first_attempt_on_held_handle_witness :
  exists rest,
    snd (wrapped_call RevisionA
           (Mock.runtime [] (Rejected (Mock.createRetryableError "down")))
           Mock.createStub (Some Mock.FAST_RETRY) "testMethod" [] 1%nat
           [EGetStub 1%nat; ECall 1%nat "testMethod" []])
    = [EGetStub 1%nat; ECall 1%nat "testMethod" []]
      ++ ECall 1%nat "testMethod" [] :: rest.
Proof.
  apply (first_attempt_on_held_handle RevisionA). vm_compute. discriminate.
Defined.

(** X5.  With [maxAttempts >= 1], when the first attempt rejects with an
    error the revision's classifier does not accept, the wrapped call
    rejects with that error after this one method call: no handle is
    acquired, no random number drawn and no wait made, however large the
    budget; in both revisions. *)
Theorem unaccepted_error_fails_fast (rev : Revision) (rt : Runtime)
    (getStub : StubGetter) (options : option RetryOptions) (prop : string)
    (args : list JsValue) (target : Stub) (tr : Trace) (e : JsValue) :
  1 <= maxAttempts_of options ->
  rpc rt tr target prop args = Rejected e ->
  classifier rev options e = false ->
  wrapped_call rev rt getStub options prop args target tr
  = (Rejected e, tr ++ [ECall target prop args]).
Proof.
  intros Hmax He Hno.
  destruct (maxAttempts_merged options) as [HA HB].
  destruct rev; unfold wrapped_call, RevA.retrying_call, RevB.retrying_call;
    unfold classifier in Hno; cbv zeta.
  - rewrite RevA_retry_loop_unfold, He, Hno.
    destruct (Z.leb_spec 1 (RevA.maxAttempts (RevA.merge_options options)));
      [reflexivity|lia].
  - rewrite RevB_retry_loop_unfold. unfold RevB.current_stub. simpl (1 =? 1).
    cbv iota. rewrite He, Hno.
    destruct (Z.leb_spec 1 (RevB.maxAttempts (RevB.merge_options options)));
      [reflexivity|lia].
Qed.

Lemma unaccepted_error_fails_fast_witness :
  wrapped_call RevisionA
    (Mock.runtime [] (Rejected (Mock.createNonRetryableError "fatal")))
    Mock.createStub (Some Mock.FAST_RETRY) "testMethod" [] 1%nat
    [EGetStub 1%nat]
  = (Rejected (Mock.createNonRetryableError "fatal"),
     [EGetStub 1%nat] ++ [ECall 1%nat "testMethod" []]).
Proof.
  apply (unaccepted_error_fails_fast RevisionA);
    [vm_compute; discriminate | reflexivity | reflexivity].
Defined.

(** X6.  With [maxAttempts = 1] a wrapped call is the plain method call
    on the held handle: one call, its outcome passed on whatever it is
    and however the error is classified, no handle acquired and no wait
    made; in both revisions.  The rejection values are those of
    [JsValue], which [String()] converts without running code of theirs,
    so classifying them cannot throw instead. *)
Theorem single_attempt_is_plain_call (rev : Revision) (rt : Runtime)
    (getStub : StubGetter) (options : option RetryOptions) (prop : string)
    (args : list JsValue) (target : Stub) (tr : Trace) :
  maxAttempts_of options = 1 ->
  wrapped_call rev rt getStub options prop args target tr
  = (rpc rt tr target prop args, tr ++ [ECall target prop args]).
Proof.
  intros Hmax.
  destruct (maxAttempts_merged options) as [HA HB].
  destruct rev; unfold wrapped_call, RevA.retrying_call, RevB.retrying_call;
    cbv zeta.
  - rewrite RevA_retry_loop_unfold, HA, Hmax. simpl (1 <=? 1). simpl (1 >=? 1).
    cbv iota zeta.
    destruct (rpc rt tr target prop args) as [v|e]; [reflexivity|].
    now destruct (RevA.reaches_retry_logic (RevA.merge_options options) e).
  - rewrite RevB_retry_loop_unfold, HB, Hmax. unfold RevB.current_stub.
    simpl (1 <=? 1). simpl (1 >=? 1). simpl (1 =? 1). cbv iota zeta.
    destruct (rpc rt tr target prop args) as [v|e]; [reflexivity|].
    now destruct (RevB.isRetryable (RevB.merge_options options) e).
Qed.

Lemma single_attempt_is_plain_call_witness :
  wrapped_call RevisionB
    (Mock.runtime [] (Rejected (Mock.createRetryableError "transient")))
    Mock.createStub (Some (Mock.with_maxAttempts 1 Mock.FAST_RETRY))
    "testMethod" [] 1%nat [EGetStub 1%nat]
  = (rpc (Mock.runtime [] (Rejected (Mock.createRetryableError "transient")))
       [EGetStub 1%nat] 1%nat "testMethod" [],
     [EGetStub 1%nat] ++ [ECall 1%nat "testMethod" []]).
Proof.
  apply (single_attempt_is_plain_call RevisionB). reflexivity.
Defined.

Section Schedule.
Variable rt : Runtime.
Variable getStub : StubGetter.
Variable prop : string.
Variable args : list JsValue.

(** ** The waits follow the backoff schedule *)

Lemma follows_schedule_none N base M attempt ext :
  wait_delays ext = [] -> random_draws ext = [] ->
  follows_schedule rt N base M attempt ext.
Proof.
  intros Hw Hd. unfold follows_schedule. rewrite Hw, Hd. conjs.
  - reflexivity.
  - intros r [].
  - simpl. lia.
Qed.

Lemma follows_schedule_step N base M attempt before pre ext :
  attempt < N ->
  wait_delays pre = [] -> random_draws pre = [] ->
  follows_schedule rt N base M (attempt + 1) ext ->
  follows_schedule rt N base M attempt
    (pre ++ ERandom (math_random rt before)
         :: EWait (jitterBackoff (math_random rt before) attempt base M)
         :: ext).
Proof.
  intros Hlt Hw Hd (Hs & Hin & Hlen). unfold follows_schedule.
  rewrite wait_delays_app, random_draws_app, Hw, Hd. simpl. conjs.
  - now rewrite Hs.
  - intros r [<-|Hr]; [now exists before | now apply Hin].
  - lia.
Qed.

Lemma RevA_run_schedule (options : RevA.Options) :
  forall (n : nat) attempt lastError stub tr,
    Z.to_nat (RevA.maxAttempts options + 1 - attempt) = n ->
    exists ext,
      snd (RevA.retry_loop rt getStub options prop args attempt lastError
             stub tr) = tr ++ ext
      /\ follows_schedule rt (RevA.maxAttempts options)
           (RevA.baseDelayMs options) (RevA.maxDelayMs options) attempt ext.
Proof.
  induction n as [|n IH]; intros attempt lastError stub tr Hn;
    rewrite RevA_retry_loop_unfold;
    destruct (Z.leb_spec attempt (RevA.maxAttempts options)); try lia;
    try (exists []; rewrite app_nil_r; simpl; split; trivial;
         now apply follows_schedule_none).
  cbv zeta.
  assert (Hone : exists ext,
             tr ++ [ECall stub prop args] = tr ++ ext
             /\ follows_schedule rt (RevA.maxAttempts options)
                  (RevA.baseDelayMs options) (RevA.maxDelayMs options)
                  attempt ext).
  { exists [ECall stub prop args]. split; trivial.
    now apply follows_schedule_none. }
  destruct (rpc rt tr stub prop args) as [v|e]; [exact Hone|].
  destruct (RevA.reaches_retry_logic options e); [|exact Hone].
  destruct (Z.geb_spec attempt (RevA.maxAttempts options)); [exact Hone|].
  clear Hone.
  set (tr1 := tr ++ [ECall stub prop args]).
  set (fresh := getStub tr1).
  destruct (IH (attempt + 1) e fresh
              ((tr1 ++ [EGetStub fresh])
                 ++ [ERandom (math_random rt (tr1 ++ [EGetStub fresh]));
                     EWait (jitterBackoff
                              (math_random rt (tr1 ++ [EGetStub fresh]))
                              attempt (RevA.baseDelayMs options)
                              (RevA.maxDelayMs options))]))
    as [ext [Hrun Hok]]; [lia|].
  exists ([ECall stub prop args; EGetStub fresh]
            ++ ERandom (math_random rt (tr1 ++ [EGetStub fresh]))
            :: EWait (jitterBackoff (math_random rt (tr1 ++ [EGetStub fresh]))
                        attempt (RevA.baseDelayMs options)
                        (RevA.maxDelayMs options)) :: ext).
  rewrite Hrun. split.
  - unfold tr1. now rewrite <- !app_assoc.
  - apply follows_schedule_step; trivial; lia.
Qed.

Lemma RevB_run_schedule (options : RevB.Options) (target : Stub) :
  forall (n : nat) attempt lastError tr,
    Z.to_nat (RevB.maxAttempts options + 1 - attempt) = n ->
    exists ext,
      snd (RevB.retry_loop rt getStub options prop args target attempt
             lastError tr) = tr ++ ext
      /\ follows_schedule rt (RevB.maxAttempts options)
           (RevB.baseDelayMs options) (RevB.maxDelayMs options) attempt ext.
Proof.
  induction n as [|n IH]; intros attempt lastError tr Hn;
    rewrite RevB_retry_loop_unfold;
    destruct (Z.leb_spec attempt (RevB.maxAttempts options)); try lia;
    try (exists []; rewrite app_nil_r; simpl; split; trivial;
         now apply follows_schedule_none).
  unfold RevB.current_stub.
  assert (Hcur : exists stub pre,
             (if attempt =? 1 then (target, tr)
              else (getStub tr, tr ++ [EGetStub (getStub tr)]))
             = (stub, tr ++ pre)
             /\ wait_delays pre = [] /\ random_draws pre = []).
  { destruct (attempt =? 1).
    - exists target, []. now rewrite app_nil_r.
    - now exists (getStub tr), [EGetStub (getStub tr)]. }
  destruct Hcur as [stub [pre [-> [Hpw Hpd]]]]. cbv zeta.
  assert (Hone : exists ext,
             (tr ++ pre) ++ [ECall stub prop args] = tr ++ ext
             /\ follows_schedule rt (RevB.maxAttempts options)
                  (RevB.baseDelayMs options) (RevB.maxDelayMs options)
                  attempt ext).
  { exists (pre ++ [ECall stub prop args]). split; [now rewrite app_assoc|].
    apply follows_schedule_none.
    - now rewrite wait_delays_app, Hpw.
    - now rewrite random_draws_app, Hpd. }
  destruct (rpc rt (tr ++ pre) stub prop args) as [v|e]; [exact Hone|].
  destruct (RevB.isRetryable options e); [|exact Hone].
  destruct (Z.geb_spec attempt (RevB.maxAttempts options)); [exact Hone|].
  clear Hone.
  set (tr1 := (tr ++ pre) ++ [ECall stub prop args]).
  destruct (IH (attempt + 1) e
              (tr1 ++ [ERandom (math_random rt tr1);
                       EWait (jitterBackoff (math_random rt tr1) attempt
                                (RevB.baseDelayMs options)
                                (RevB.maxDelayMs options))]))
    as [ext [Hrun Hok]]; [lia|].
  exists ((pre ++ [ECall stub prop args])
            ++ ERandom (math_random rt tr1)
            :: EWait (jitterBackoff (math_random rt tr1) attempt
                        (RevB.baseDelayMs options)
                        (RevB.maxDelayMs options)) :: ext).
  rewrite Hrun. split.
  - unfold tr1. now rewrite <- !app_assoc.
  - apply follows_schedule_step; trivial; try lia.
    + now rewrite wait_delays_app, Hpw.
    + now rewrite random_draws_app, Hpd.
Qed.

End Schedule.

Section Accepted.
Variable rt : Runtime.
Variable getStub : StubGetter.
Variable prop : string.
Variable args : list JsValue.

(** ** Retries happen only after accepted errors *)

Lemma RevA_run_accepted (options : RevA.Options) :
  forall (n : nat) attempt lastError stub tr,
    Z.to_nat (RevA.maxAttempts options + 1 - attempt) = n ->
    exists ext,
      snd (RevA.retry_loop rt getStub options prop args attempt lastError
             stub tr) = tr ++ ext
      /\ retried_calls_accepted rt (RevA.reaches_retry_logic options) tr ext.
Proof.
  induction n as [|n IH]; intros attempt lastError stub tr Hn;
    rewrite RevA_retry_loop_unfold;
    destruct (Z.leb_spec attempt (RevA.maxAttempts options)); try lia;
    try (exists []; rewrite app_nil_r; simpl; now split).
  cbv zeta.
  assert (Hone : exists ext,
             tr ++ [ECall stub prop args] = tr ++ ext
             /\ retried_calls_accepted rt (RevA.reaches_retry_logic options)
                  tr ext).
  { exists [ECall stub prop args]. simpl. conjs; trivial. lia. }
  destruct (rpc rt tr stub prop args) as [v|e] eqn:He; [exact Hone|].
  destruct (RevA.reaches_retry_logic options e) eqn:Hacc; [|exact Hone].
  destruct (Z.geb_spec attempt (RevA.maxAttempts options)); [exact Hone|].
  clear Hone.
  set (tr1 := tr ++ [ECall stub prop args]).
  set (fresh := getStub tr1).
  set (r := math_random rt (tr1 ++ [EGetStub fresh])).
  set (delay := jitterBackoff r attempt _ _).
  destruct (IH (attempt + 1) e fresh
              ((tr1 ++ [EGetStub fresh]) ++ [ERandom r; EWait delay]))
    as [ext [Hrun Hok]]; [lia|].
  exists (ECall stub prop args :: EGetStub fresh :: ERandom r
            :: EWait delay :: ext).
  rewrite Hrun. split.
  - unfold tr1. now rewrite <- !app_assoc.
  - simpl. conjs; trivial.
    + intros _. now exists e.
    + replace ((((tr ++ [ECall stub prop args]) ++ [EGetStub fresh])
                 ++ [ERandom r]) ++ [EWait delay])
        with ((tr1 ++ [EGetStub fresh]) ++ [ERandom r; EWait delay])
        by (unfold tr1; now rewrite <- !app_assoc).
      exact Hok.
Qed.

Lemma RevB_run_accepted (options : RevB.Options) (target : Stub) :
  forall (n : nat) attempt lastError tr,
    Z.to_nat (RevB.maxAttempts options + 1 - attempt) = n ->
    exists ext,
      snd (RevB.retry_loop rt getStub options prop args target attempt
             lastError tr) = tr ++ ext
      /\ retried_calls_accepted rt (RevB.isRetryable options) tr ext.
Proof.
  induction n as [|n IH]; intros attempt lastError tr Hn;
    rewrite RevB_retry_loop_unfold;
    destruct (Z.leb_spec attempt (RevB.maxAttempts options)); try lia;
    try (exists []; rewrite app_nil_r; simpl; now split).
  unfold RevB.current_stub.
  assert (Hcur : exists stub pre,
             (if attempt =? 1 then (target, tr)
              else (getStub tr, tr ++ [EGetStub (getStub tr)]))
             = (stub, tr ++ pre)
             /\ forall rest,
                 ((1 <= count_calls rest)%nat ->
                  exists e, rpc rt (tr ++ pre) stub prop args = Rejected e
                            /\ RevB.isRetryable options e = true) ->
                 retried_calls_accepted rt (RevB.isRetryable options)
                   ((tr ++ pre) ++ [ECall stub prop args]) rest ->
                 retried_calls_accepted rt (RevB.isRetryable options) tr
                   (pre ++ ECall stub prop args :: rest)).
  { destruct (attempt =? 1).
    - exists target, []. rewrite app_nil_r. split; trivial.
      intros rest Hcall Hrest. simpl. now split.
    - exists (getStub tr), [EGetStub (getStub tr)]. split; trivial.
      intros rest Hcall Hrest. simpl. conjs; trivial. }
  destruct Hcur as [stub [pre [-> Hwrap]]]. cbv zeta.
  assert (Hone : exists ext,
             (tr ++ pre) ++ [ECall stub prop args] = tr ++ ext
             /\ retried_calls_accepted rt (RevB.isRetryable options) tr ext).
  { exists (pre ++ [ECall stub prop args]). split; [now rewrite app_assoc|].
    apply Hwrap; simpl; trivial. lia. }
  destruct (rpc rt (tr ++ pre) stub prop args) as [v|e] eqn:He; [exact Hone|].
  destruct (RevB.isRetryable options e) eqn:Hacc; [|exact Hone].
  destruct (Z.geb_spec attempt (RevB.maxAttempts options)); [exact Hone|].
  clear Hone.
  set (tr1 := (tr ++ pre) ++ [ECall stub prop args]).
  set (r := math_random rt tr1).
  set (delay := jitterBackoff r attempt _ _).
  destruct (IH (attempt + 1) e (tr1 ++ [ERandom r; EWait delay]))
    as [ext [Hrun Hok]]; [lia|].
  exists (pre ++ ECall stub prop args :: ERandom r :: EWait delay :: ext).
  rewrite Hrun. split.
  - unfold tr1. now rewrite <- !app_assoc.
  - apply Hwrap.
    + intros _. now exists e.
    + simpl. conjs; trivial.
      replace ((((tr ++ pre) ++ [ECall stub prop args]) ++ [ERandom r])
                 ++ [EWait delay])
        with (tr1 ++ [ERandom r; EWait delay])
        by (unfold tr1; now rewrite <- !app_assoc).
      exact Hok.
Qed.

End Accepted.

Lemma delays_merged (options : option RetryOptions) :
  RevA.baseDelayMs (RevA.merge_options options) = baseDelayMs_of options
  /\ RevA.maxDelayMs (RevA.merge_options options) = maxDelayMs_of options
  /\ RevB.baseDelayMs (RevB.merge_options options) = baseDelayMs_of options
  /\ RevB.maxDelayMs (RevB.merge_options options) = maxDelayMs_of options.
Proof. conjs; reflexivity. Qed.

Lemma run_follows_schedule (rev : Revision) (rt : Runtime)
    (getStub : StubGetter) (options : option RetryOptions) (prop : string)
    (args : list JsValue) (target : Stub) (tr : Trace) :
  exists ext,
    snd (wrapped_call rev rt getStub options prop args target tr) = tr ++ ext
    /\ follows_schedule rt (maxAttempts_of options) (baseDelayMs_of options)
         (maxDelayMs_of options) 1 ext.
Proof.
  destruct rev; unfold wrapped_call, RevA.retrying_call, RevB.retrying_call;
    cbv zeta.
  - exact (RevA_run_schedule rt getStub prop args
             (RevA.merge_options options) _ 1 JUndefined target tr eq_refl).
  - exact (RevB_run_schedule rt getStub prop args
             (RevB.merge_options options) target _ 1 JUndefined tr eq_refl).
Qed.

Lemma backoff_schedule_length (attempt : Z) (base M : Number)
    (draws : list Number) :
  List.length (backoff_schedule attempt base M draws) = List.length draws.
Proof.
  revert attempt. induction draws as [|r draws IH]; intros attempt;
    cbn [backoff_schedule List.length]; [reflexivity|].
  now rewrite IH.
Qed.

(** X7.  The waits of a wrapped call follow the exponential schedule:
    the wait before the second attempt is [jitterBackoff] of attempt 1,
    the one before the third is [jitterBackoff] of attempt 2, and so on,
    each computed from its own draw of [Math.random()] (an answer of the
    host, one draw per wait) and from the [baseDelayMs] and [maxDelayMs]
    of the configuration; in both revisions. *)
Theorem waits_follow_exponential_caps (rev : Revision) (rt : Runtime)
    (getStub : StubGetter) (options : option RetryOptions) (prop : string)
    (args : list JsValue) (target : Stub) (tr : Trace) :
  exists ext,
    snd (wrapped_call rev rt getStub options prop args target tr) = tr ++ ext
    /\ wait_delays ext
       = backoff_schedule 1 (baseDelayMs_of options) (maxDelayMs_of options)
           (random_draws ext)
    /\ (forall r, In r (random_draws ext) -> exists tr', r = math_random rt tr')
    /\ List.length (wait_delays ext) = List.length (random_draws ext).
Proof.
  destruct (run_follows_schedule rev rt getStub options prop args target tr)
    as [ext [Hrun (Hs & Hin & _)]].
  exists ext. conjs; trivial.
  rewrite Hs. apply backoff_schedule_length.
Qed.

Lemma schedule_within_caps (N : Z) (base M : Number) :
  is_integer base = true -> number_le (number_of_Z 0) base ->
  is_integer M = true -> number_le (number_of_Z 0) M ->
  N <= 1024 \/ number_lt (number_of_Z 0) base ->
  forall (draws : list Number) (attempt : Z),
    1 <= attempt ->
    Z.of_nat (List.length draws) <= Z.max 0 (N - attempt) ->
    (forall r, In r draws -> unit_interval r) ->
    forall i d,
      nth_error (backoff_schedule attempt base M draws) i = Some d ->
      number_le (number_of_Z 0) d
      /\ number_le d (attemptUpperBoundMs (attempt + Z.of_nat i) base M).
Proof.
  intros Hib Hb Him Hm Hov.
  induction draws as [|r draws IH]; intros attempt Ha Hlen Hunit i d Hi;
    [destruct i; discriminate|].
  cbn [List.length] in Hlen.
  destruct i as [|i]; cbn in Hi.
  - injection Hi as <-. rewrite Z.add_0_r.
    apply delay_within_cap; trivial.
    + apply Hunit. now left.
    + destruct Hov as [Hov|Hov]; [left; lia | now right].
  - replace (attempt + Z.of_nat (S i)) with (attempt + 1 + Z.of_nat i) by lia.
    apply (IH (attempt + 1)); trivial; try lia.
    intros r' Hr'. apply Hunit. now right.
Qed.

(** X8.  With integer [baseDelayMs >= 0] and [maxDelayMs >= 0], a host
    whose [Math.random()] answers in [[0, 1)], and [maxAttempts <= 1024]
    or [baseDelayMs > 0], no wait of a wrapped call is [NaN] or negative
    and none exceeds the cap of its attempt: the [i]-th wait (counting
    from 0) lies between [0] and
    [Math.min(2 ** (i+1) * baseDelayMs, maxDelayMs)]; in both
    revisions. *)
Theorem waits_within_caps (rev : Revision) (rt : Runtime)
    (getStub : StubGetter) (options : option RetryOptions) (prop : string)
    (args : list JsValue) (target : Stub) (tr : Trace) :
  (forall tr', unit_interval (math_random rt tr')) ->
  is_integer (baseDelayMs_of options) = true ->
  number_le (number_of_Z 0) (baseDelayMs_of options) ->
  is_integer (maxDelayMs_of options) = true ->
  number_le (number_of_Z 0) (maxDelayMs_of options) ->
  maxAttempts_of options <= 1024
  \/ number_lt (number_of_Z 0) (baseDelayMs_of options) ->
  exists ext,
    snd (wrapped_call rev rt getStub options prop args target tr) = tr ++ ext
    /\ forall i d,
         nth_error (wait_delays ext) i = Some d ->
         number_le (number_of_Z 0) d
         /\ number_le d
              (attemptUpperBoundMs (1 + Z.of_nat i) (baseDelayMs_of options)
                 (maxDelayMs_of options)).
Proof.
  intros Hrand Hib Hb Him Hm Hov.
  destruct (run_follows_schedule rev rt getStub options prop args target tr)
    as [ext [Hrun (Hs & Hin & Hlen)]].
  exists ext. split; [exact Hrun|]. intros i d Hi. rewrite Hs in Hi.
  apply (schedule_within_caps (maxAttempts_of options) _ _ Hib Hb Him Hm Hov
           (random_draws ext) 1); trivial; try lia.
  intros r Hr. destruct (Hin r Hr) as [tr' ->]. apply Hrand.
Qed.

Lemma waits_within_caps_witness :
  exists ext,
    snd (wrapped_call RevisionA
           (Mock.runtime [] (Rejected (Mock.createRetryableError "down")))
           Mock.createStub (Some Mock.FAST_RETRY) "testMethod" [] 1%nat
           [EGetStub 1%nat])
    = [EGetStub 1%nat] ++ ext
    /\ forall i d,
         nth_error (wait_delays ext) i = Some d ->
         number_le (number_of_Z 0) d
         /\ number_le d
              (attemptUpperBoundMs (1 + Z.of_nat i)
                 (baseDelayMs_of (Some Mock.FAST_RETRY))
                 (maxDelayMs_of (Some Mock.FAST_RETRY))).
Proof.
  apply (waits_within_caps RevisionA).
  - intros tr'. repeat split.
  - reflexivity.
  - reflexivity.
  - reflexivity.
  - reflexivity.
  - left. vm_compute. discriminate.
Defined.

(** X9.  A wrapped call makes a further method call only after a method
    call that rejected with an error the revision's classifier accepts:
    it never calls again after a call that resolved, nor after one that
    rejected with an error the classifier does not accept; in both
    revisions. *)
Theorem retries_only_after_accepted_errors (rev : Revision) (rt : Runtime)
    (getStub : StubGetter) (options : option RetryOptions) (prop : string)
    (args : list JsValue) (target : Stub) (tr : Trace) :
  exists ext,
    snd (wrapped_call rev rt getStub options prop args target tr) = tr ++ ext
    /\ retried_calls_accepted rt (classifier rev options) tr ext.
Proof.
  destruct rev; unfold wrapped_call, RevA.retrying_call, RevB.retrying_call;
    cbv zeta.
  - exact (RevA_run_accepted rt getStub prop args
             (RevA.merge_options options) _ 1 JUndefined target tr eq_refl).
  - exact (RevB_run_accepted rt getStub prop args
             (RevB.merge_options options) target _ 1 JUndefined tr eq_refl).
Qed.

(** X10.  Whatever revision B retries, revision A retries as well: an
    error accepted by revision B's classifier under a configuration is
    accepted by revision A's under the same configuration.  Under a
    configuration without a predicate the two classifiers are the
    built-in rule. *)
Theorem revisionA_accepts_what_revisionB_accepts
    (options : option RetryOptions) (e : JsValue) :
  (classifier RevisionB options e = true ->
   classifier RevisionA options e = true)
  /\ (predicate_of options = None ->
      classifier RevisionA options e = isErrorRetryable e
      /\ classifier RevisionB options e = isErrorRetryable e).
Proof.
  unfold classifier, RevA.reaches_retry_logic.
  change (RevA.isRetryable (RevA.merge_options options))
    with (predicate_of options).
  change (RevB.isRetryable (RevB.merge_options options))
    with (match predicate_of options with
          | Some p => p
          | None => isErrorRetryable
          end).
  destruct (predicate_of options) as [p|]; split.
  - intros ->. now destruct (isErrorRetryable e).
  - discriminate.
  - intros ->. reflexivity.
  - intros _. now destruct (isErrorRetryable e).
Qed.

Lemma revisionA_accepts_what_revisionB_accepts_witness :
  classifier RevisionA
    (Some (Mock.with_isRetryable (fun _ => true) Mock.FAST_RETRY))
    (Mock.createNonRetryableError "app-error") = true
  /\ classifier RevisionA None (Mock.createRetryableError "t")
     = isErrorRetryable (Mock.createRetryableError "t").
Proof.
  split.
  - apply (proj1 (revisionA_accepts_what_revisionB_accepts _ _)).
    reflexivity.
  - apply (proj2 (revisionA_accepts_what_revisionB_accepts None _)).
    reflexivity.
Defined.

(** X11.  A stub proxy obtained through [get] or [getByName] acquires
    one handle when it is created, with the address given ([get] passes
    on its first argument only, [getByName] its first two), and a method
    call through it retries only on handles acquired from the same
    underlying namespace with that same address. *)
Theorem acquired_stub_retries_at_same_address (rt : Runtime)
    (namespace : Namespace) (options : option RetryOptions) (via : string)
    (acquire : list JsValue) (prop : string) (args : list JsValue)
    (tr : Trace) (f g : FunctionId) :
  via = "get" \/ via = "getByName" ->
  ns_member rt namespace (KStr via) RProxy = MFunction f ->
  stub_member rt (ns_stub rt tr namespace (address_of via acquire))
    (KStr prop) RTarget = MFunction g ->
  let getStub := fun tr' => ns_stub rt tr' namespace (address_of via acquire) in
  exists ext,
    snd (acquire_then_call rt namespace options via acquire prop args tr)
    = (tr ++ [EGetStub (getStub tr)]) ++ ext
    /\ retries_on_fresh_handles getStub (tr ++ [EGetStub (getStub tr)])
         (Some (getStub tr)) ext.
Proof.
  intros Hvia Hf Hg getStub.
  assert (Hrun : acquire_then_call rt namespace options via acquire prop args tr
                 = RevA.retrying_call rt getStub (RevA.merge_options options)
                     prop args (getStub tr) (tr ++ [EGetStub (getStub tr)])).
  { unfold acquire_then_call, RevA.namespace_proxy_call, namespace_proxy_get.
    simpl RevA.np_target. rewrite Hf.
    destruct Hvia as [-> | ->]; cbn in Hg |- *;
      unfold RevA.stub_proxy_get; cbn [RevA.target]; rewrite Hg; reflexivity. }
  rewrite Hrun. unfold RevA.retrying_call. cbv zeta.
  destruct (RevA_loop_trace rt getStub prop args
              (RevA.merge_options options) _ 1 JUndefined (getStub tr)
              (tr ++ [EGetStub (getStub tr)]) eq_refl)
    as [ext [Hext [Hchain _]]].
  exists ext. split; [exact Hext | exact Hchain].
Qed.

Lemma acquired_stub_retries_at_same_address_witness :
  let rt :=
    Mock.runtime [Rejected (Mock.createRetryableError "transient-1")]
      (Resolved (JStr "success")) in
  let acquire := [JStr "some-id"; JObject [(own "locationHint", JStr "weur")]] in
  let getStub := fun tr' =>
    ns_stub rt tr' Mock.namespace (address_of "get" acquire) in
  exists ext,
    snd (acquire_then_call rt Mock.namespace (Some Mock.FAST_RETRY) "get"
           acquire "testMethod" [] [])
    = ([] ++ [EGetStub (getStub [])]) ++ ext
    /\ retries_on_fresh_handles getStub ([] ++ [EGetStub (getStub [])])
         (Some (getStub [])) ext.
Proof.
  intros rt acquire getStub.
  apply (acquired_stub_retries_at_same_address rt Mock.namespace
           (Some Mock.FAST_RETRY) "get" acquire "testMethod" [] []
           Mock.fn_get Mock.fn_testMethod);
    [now left | reflexivity | reflexivity].
Defined.

(** X12.  Calling [jurisdiction(j)] on a namespace proxy asks the
    underlying namespace once for its jurisdiction-scoped namespace and
    returns exactly the proxy that [withRetry] builds over that namespace
    from the same options argument: the same attempt budget, delays and
    predicate apply to every stub obtained from it. *)
Theorem jurisdiction_keeps_configuration (rt : Runtime)
    (namespace : Namespace) (options : option RetryOptions)
    (j : JsValue) (more : list JsValue) (tr : Trace) (f : FunctionId) :
  ns_member rt namespace (KStr "jurisdiction") RProxy = MFunction f ->
  RevA.namespace_proxy_call rt (RevA.withRetry namespace options)
    (KStr "jurisdiction") (j :: more) tr
  = (RevA.RNamespace
       (RevA.withRetry (ns_jurisdiction rt tr namespace j) options),
     tr ++ [EJurisdiction namespace j])
  /\ RevA.np_opts (RevA.withRetry (ns_jurisdiction rt tr namespace j) options)
     = RevA.np_opts (RevA.withRetry namespace options).
Proof.
  intros Hf. split; [|reflexivity].
  unfold RevA.namespace_proxy_call, namespace_proxy_get.
  simpl RevA.np_target. now rewrite Hf.
Qed.

Lemma jurisdiction_keeps_configuration_witness :
  let rt := Mock.runtime [] (Resolved (JStr "success")) in
  let options := Some (Mock.with_maxAttempts 5 Mock.FAST_RETRY) in
  RevA.namespace_proxy_call rt (RevA.withRetry Mock.namespace options)
    (KStr "jurisdiction") [JStr "eu"] []
  = (RevA.RNamespace
       (RevA.withRetry (ns_jurisdiction rt [] Mock.namespace (JStr "eu"))
          options),
     [] ++ [EJurisdiction Mock.namespace (JStr "eu")])
  /\ RevA.np_opts
       (RevA.withRetry (ns_jurisdiction rt [] Mock.namespace (JStr "eu"))
          options)
     = RevA.np_opts (RevA.withRetry Mock.namespace options).
Proof.
  intros rt options.
  apply (jurisdiction_keeps_configuration rt Mock.namespace options
           (JStr "eu") [] [] Mock.fn_jurisdiction).
  reflexivity.
Defined.

(** X13.  With [baseDelayMs = 0] the backoff is [NaN] from attempt 1024
    on, for every draw and every [maxDelayMs]: [2 ** attempt] is
    [Infinity] there, [Infinity * 0] is [NaN], and [Math.min],
    the product with the draw and [Math.floor] all pass [NaN] on. *)
Theorem zero_base_overflows_to_NaN (r : Number) (a : Z) (s : bool)
    (maxDelayMs : Number) :
  1024 <= a ->
  number_pow2 a = S754_infinity false
  /\ attemptUpperBoundMs a (S754_zero s) maxDelayMs = S754_nan
  /\ jitterBackoff r a (S754_zero s) maxDelayMs = S754_nan.
Proof.
  intros Ha.
  assert (Hp : number_pow2 a = S754_infinity false).
  { rewrite number_pow2_spec by lia. unfold overflow_or.
    change (emax - prec) with 971.
    destruct (Z.leb_spec (a - 52) 971); [lia | reflexivity]. }
  assert (Hc : attemptUpperBoundMs a (S754_zero s) maxDelayMs = S754_nan).
  { unfold attemptUpperBoundMs. rewrite Hp. reflexivity. }
  conjs; trivial.
  unfold jitterBackoff. rewrite Hc. now destruct r.
Qed.

Lemma zero_base_overflows_to_NaN_witness :
  number_pow2 1024 = S754_infinity false
  /\ attemptUpperBoundMs 1024 (S754_zero false) (number_of_Z 3000) = S754_nan
  /\ jitterBackoff Mock.draw 1024 (S754_zero false) (number_of_Z 3000)
     = S754_nan.
Proof.
  apply (zero_base_overflows_to_NaN Mock.draw 1024 false (number_of_Z 3000)).
  lia.
Defined.

(** X14.  The built-in rule accepts no value that is not an object:
    [undefined], [null], booleans, numbers and strings thrown by a method
    are never retried on its account, whatever they contain. *)
Theorem non_objects_never_retryable (e : JsValue) :
  (forall name message props, e <> JError name message props) ->
  (forall props, e <> JObject props) ->
  isErrorRetryable e = false.
Proof.
  intros Herr Hobj.
  destruct e as [| |b|n| |s|name message props|props]; try reflexivity.
  - now destruct (Herr name message props).
  - now destruct (Hobj props).
Qed.

Lemma non_objects_never_retryable_witness :
  isErrorRetryable (JStr "retryable") = false.
Proof.
  apply non_objects_never_retryable; discriminate.
Defined.

Lemma includes_behind_error_prefix (message : string) :
  includes (String_ (JError None message [])) OVERLOADED_TEXT
  = includes message OVERLOADED_TEXT.
Proof.
  unfold String_. destruct message as [|c message]; reflexivity.
Qed.

(** X15.  For an [Error] built by [new Error(message)] whose name is the
    inherited ["Error"], decorated with own properties, the built-in rule
    depends on the two markers and on the message alone: it accepts
    exactly when the [retryable] property is truthy, the [overloaded]
    property is not, and the message does not contain
    "Durable Object is overloaded". *)
Theorem error_object_classified_by_markers_and_message
    (message : string) (props : list (ErrorKey * JsValue)) :
  isErrorRetryable (JError None message props)
  = Boolean (assoc "retryable" props)
    && negb (Boolean (assoc "overloaded" props))
    && negb (includes message "Durable Object is overloaded").
Proof.
  unfold isErrorRetryable. cbv zeta.
  change (String_ (JError None message props))
    with (String_ (JError None message [])).
  rewrite includes_behind_error_prefix. reflexivity.
Qed.

Lemma acquired_handles_app (a b : Trace) :
  acquired_handles (a ++ b) = acquired_handles a ++ acquired_handles b.
Proof.
  induction a as [|ev a IH]; simpl; [reflexivity|].
  destruct ev; simpl; rewrite IH; reflexivity.
Qed.

Lemma calls_are_app (prop : string) (args : list JsValue) (a b : Trace) :
  calls_are prop args a -> calls_are prop args b ->
  calls_are prop args (a ++ b).
Proof.
  intros Ha Hb s p x Hin. apply in_app_or in Hin.
  destruct Hin; [eapply Ha | eapply Hb]; eauto.
Qed.

Section Handles.
Variable rt : Runtime.
Variable getStub : StubGetter.
Variable prop : string.
Variable args : list JsValue.

Lemma RevA_run_handles (options : RevA.Options) :
  forall (n : nat) attempt lastError stub tr,
    Z.to_nat (RevA.maxAttempts options + 1 - attempt) = n ->
    exists ext,
      snd (RevA.retry_loop rt getStub options prop args attempt lastError
             stub tr) = tr ++ ext
      /\ calls_are prop args ext
      /\ called_handles ext
         = if attempt <=? RevA.maxAttempts options
           then stub :: acquired_handles ext else [].
Proof.
  induction n as [|n IH]; intros attempt lastError stub tr Hn;
    rewrite RevA_retry_loop_unfold;
    destruct (Z.leb_spec attempt (RevA.maxAttempts options)); try lia;
    try (exists []; rewrite app_nil_r; simpl; conjs; trivial;
         apply calls_are_nil).
  cbv zeta.
  assert (Hone : exists ext,
             tr ++ [ECall stub prop args] = tr ++ ext
             /\ calls_are prop args ext
             /\ called_handles ext = stub :: acquired_handles ext).
  { exists [ECall stub prop args]. conjs; trivial.
    apply calls_are_cons_call, calls_are_nil. }
  destruct (rpc rt tr stub prop args) as [v|e]; [exact Hone|].
  destruct (RevA.reaches_retry_logic options e); [|exact Hone].
  destruct (Z.geb_spec attempt (RevA.maxAttempts options)); [exact Hone|].
  clear Hone.
  set (tr1 := tr ++ [ECall stub prop args]).
  set (fresh := getStub tr1).
  set (r := math_random rt (tr1 ++ [EGetStub fresh])).
  set (delay := jitterBackoff r attempt _ _).
  destruct (IH (attempt + 1) e fresh
              ((tr1 ++ [EGetStub fresh]) ++ [ERandom r; EWait delay]))
    as [ext [Hrun [Hcalls Hh]]]; [lia|].
  destruct (Z.leb_spec (attempt + 1) (RevA.maxAttempts options)); [|lia].
  exists (ECall stub prop args :: EGetStub fresh :: ERandom r
            :: EWait delay :: ext).
  rewrite Hrun. conjs.
  - unfold tr1. now rewrite <- !app_assoc.
  - repeat (first [apply calls_are_cons_call
                  | apply calls_are_cons_other; [discriminate|]]).
    exact Hcalls.
  - simpl. now rewrite Hh.
Qed.

Lemma RevB_run_handles (options : RevB.Options) (target : Stub) :
  forall (n : nat) attempt lastError tr,
    1 <= attempt ->
    Z.to_nat (RevB.maxAttempts options + 1 - attempt) = n ->
    exists ext,
      snd (RevB.retry_loop rt getStub options prop args target attempt
             lastError tr) = tr ++ ext
      /\ calls_are prop args ext
      /\ called_handles ext
         = if attempt <=? RevB.maxAttempts options
           then (if attempt =? 1 then [target] else []) ++ acquired_handles ext
           else [].
Proof.
  induction n as [|n IH]; intros attempt lastError tr Hpos Hn;
    rewrite RevB_retry_loop_unfold;
    destruct (Z.leb_spec attempt (RevB.maxAttempts options)); try lia;
    try (exists []; rewrite app_nil_r; simpl; conjs; trivial;
         apply calls_are_nil).
  unfold RevB.current_stub.
  assert (Hcur : exists stub pre,
             (if attempt =? 1 then (target, tr)
              else (getStub tr, tr ++ [EGetStub (getStub tr)]))
             = (stub, tr ++ pre)
             /\ calls_are prop args pre
             /\ called_handles pre = []
             /\ (if attempt =? 1 then [target] else []) ++ acquired_handles pre
                = [stub]).
  { destruct (attempt =? 1).
    - exists target, []. rewrite app_nil_r. simpl. conjs; trivial.
      apply calls_are_nil.
    - exists (getStub tr), [EGetStub (getStub tr)]. simpl. conjs; trivial.
      apply calls_are_cons_other; [discriminate | apply calls_are_nil]. }
  destruct Hcur as [stub [pre [-> [Hpcalls [Hpcalled Hphead]]]]]. cbv zeta.
  assert (Hone : exists ext,
             (tr ++ pre) ++ [ECall stub prop args] = tr ++ ext
             /\ calls_are prop args ext
             /\ called_handles ext
                = (if attempt =? 1 then [target] else [])
                    ++ acquired_handles ext).
  { exists (pre ++ [ECall stub prop args]). conjs.
    - now rewrite app_assoc.
    - apply calls_are_app; [exact Hpcalls|].
      apply calls_are_cons_call, calls_are_nil.
    - rewrite called_handles_app, acquired_handles_app, Hpcalled. simpl.
      rewrite app_nil_r. now rewrite Hphead. }
  destruct (rpc rt (tr ++ pre) stub prop args) as [v|e]; [exact Hone|].
  destruct (RevB.isRetryable options e); [|exact Hone].
  destruct (Z.geb_spec attempt (RevB.maxAttempts options)); [exact Hone|].
  clear Hone.
  set (tr1 := (tr ++ pre) ++ [ECall stub prop args]).
  set (r := math_random rt tr1).
  set (delay := jitterBackoff r attempt _ _).
  destruct (IH (attempt + 1) e (tr1 ++ [ERandom r; EWait delay]))
    as [ext [Hrun [Hcalls Hh]]]; [lia|lia|].
  destruct (Z.leb_spec (attempt + 1) (RevB.maxAttempts options)); [|lia].
  destruct (Z.eqb_spec (attempt + 1) 1); [lia|]. simpl in Hh.
  exists (pre ++ ECall stub prop args :: ERandom r :: EWait delay :: ext).
  rewrite Hrun. conjs.
  - unfold tr1. now rewrite <- !app_assoc.
  - apply calls_are_app; [exact Hpcalls|].
    repeat (first [apply calls_are_cons_call
                  | apply calls_are_cons_other; [discriminate|]]).
    exact Hcalls.
  - rewrite called_handles_app, acquired_handles_app, Hpcalled. simpl.
    rewrite Hh, app_assoc, Hphead. reflexivity.
Qed.

End Handles.

(** X16.  With [maxAttempts >= 1] the handles a wrapped call makes its
    method calls on are, in order, the handle the proxy holds followed by
    every handle it acquired from the getter: each acquired handle is
    used for exactly one attempt, and none is acquired without being
    used; in both revisions. *)
Theorem every_acquired_handle_is_used (rev : Revision) (rt : Runtime)
    (getStub : StubGetter) (options : option RetryOptions) (prop : string)
    (args : list JsValue) (target : Stub) (tr : Trace) :
  1 <= maxAttempts_of options ->
  exists ext,
    snd (wrapped_call rev rt getStub options prop args target tr) = tr ++ ext
    /\ called_handles ext = target :: acquired_handles ext.
Proof.
  intros Hmax.
  destruct (maxAttempts_merged options) as [HA HB].
  destruct rev; unfold wrapped_call, RevA.retrying_call, RevB.retrying_call;
    cbv zeta.
  - destruct (RevA_run_handles rt getStub prop args
                (RevA.merge_options options) _ 1 JUndefined target tr eq_refl)
      as [ext [Hrun [_ Hh]]].
    exists ext. split; [exact Hrun|].
    destruct (Z.leb_spec 1 (RevA.maxAttempts (RevA.merge_options options)));
      [exact Hh | lia].
  - destruct (RevB_run_handles rt getStub prop args
                (RevB.merge_options options) target _ 1 JUndefined tr
                ltac:(lia) eq_refl)
      as [ext [Hrun [_ Hh]]].
    exists ext. split; [exact Hrun|].
    destruct (Z.leb_spec 1 (RevB.maxAttempts (RevB.merge_options options)));
      [exact Hh | lia].
Qed.

Lemma every_acquired_handle_is_used_witness :
  exists ext,
    snd (wrapped_call RevisionB
           (Mock.runtime [Rejected (Mock.createRetryableError "transient-1");
                          Rejected (Mock.createRetryableError "transient-2")]
              (Resolved (JStr "success")))
           Mock.createStub (Some Mock.FAST_RETRY) "testMethod" [] 1%nat
           [EGetStub 1%nat])
    = [EGetStub 1%nat] ++ ext
    /\ called_handles ext = 1%nat :: acquired_handles ext.
Proof.
  apply (every_acquired_handle_is_used RevisionB). vm_compute. discriminate.
Defined.

(** X17.  Every method call a wrapped call makes, the first attempt and
    every retry alike, is a call of the same method with the arguments
    the caller passed, unchanged; in both revisions. *)
Theorem every_attempt_same_method_and_arguments (rev : Revision)
    (rt : Runtime) (getStub : StubGetter) (options : option RetryOptions)
    (prop : string) (args : list JsValue) (target : Stub) (tr : Trace) :
  exists ext,
    snd (wrapped_call rev rt getStub options prop args target tr) = tr ++ ext
    /\ calls_are prop args ext.
Proof.
  destruct rev; unfold wrapped_call, RevA.retrying_call, RevB.retrying_call;
    cbv zeta.
  - destruct (RevA_run_handles rt getStub prop args
                (RevA.merge_options options) _ 1 JUndefined target tr eq_refl)
      as [ext [Hrun [Hcalls _]]].
    now exists ext.
  - destruct (RevB_run_handles rt getStub prop args
                (RevB.merge_options options) target _ 1 JUndefined tr
                ltac:(lia) eq_refl)
      as [ext [Hrun [Hcalls _]]].
    now exists ext.
Qed.
